(** * welle-cli channel scanner: model and verified properties

    Shallow embedding of [ChannelScanner] (welle-cli/channelscanner.h and
    its implementation): the notification callbacks, the two-phase scan
    loop [run], the label trimming it applies, [hex_str] and
    [printJsonReport]. *)

From Stdlib Require Import ZArith String Ascii List Bool Lia.
From Stdlib Require Import Floats.SpecFloat.
From stdpp Require Import gmap.
Import ListNotations.

Local Open Scope string_scope.
Local Open Scope Z_scope.
Local Open Scope list_scope.

(** ** Machine integers *)

Module MachineInt.

(** Conversion to [uint32_t] / [uint16_t]: reduction modulo 2^w. *)
Definition to_uint32 (z : Z) : Z := z mod 2 ^ 32.
Definition to_uint16 (z : Z) : Z := z mod 2 ^ 16.

(** The eight bits of a [char]. Whether [char] is signed or not, the
    value is zero exactly when these bits are. *)
Definition char_bits (z : Z) : Z := z mod 2 ^ 8.

Definition INT_MAX : Z := 2 ^ 31 - 1.

(** [static_cast<int>] of an unsigned quantity: two's complement wrap. *)
Definition static_cast_int (z : Z) : Z := (z + 2 ^ 31) mod 2 ^ 32 - 2 ^ 31.

End MachineInt.
Import MachineInt.

(** ** Characters and label trimming *)

Module Label.

Definition code (c : ascii) : Z := Z.of_nat (nat_of_ascii c).

(** [isspace] in the default "C" locale: space, \t, \n, \v, \f, \r. *)
Definition isspace (c : ascii) : bool :=
  (code c =? 32) || ((9 <=? code c) && (code c <=? 13)).

(** [iscntrl] in the "C" locale: codes 0..31 and 127 (DEL). *)
Definition iscntrl (c : ascii) : bool :=
  (code c <? 32) || (code c =? 127).

(** [find_if(s.rbegin(), s.rend(), [](int c){ return !isspace(c); })]
    walks the string from its end; the result counts the characters
    passed over before the first non-space one (all of them when the
    reverse range is exhausted). *)
Fixpoint rfind_if_not_space (rs : list ascii) : nat :=
  match rs with
  | [] => O
  | c :: rs' => if negb (isspace c) then O else S (rfind_if_not_space rs')
  end.

(** [.base()] of that reverse iterator, as an offset from [begin()]. *)
Definition trim_base (s : string) : nat :=
  (String.length s - rfind_if_not_space (rev (list_ascii_of_string s)))%nat.

(** [s.erase(find_if(...).base(), s.end())]: keep [begin(), base). *)
Definition trim_trailing (s : string) : string :=
  substring 0 (trim_base s) s.

(** The last character of a string, if any. *)
Definition last_char (s : string) : option ascii :=
  last (list_ascii_of_string s).

(** [r] is [s] with exactly its maximal trailing run of [P]-characters
    removed: what is cut is a suffix made of [P]-characters only, and
    what is left does not end in a [P]-character. *)
Definition strips_trailing_run (P : ascii -> bool) (s r : string) : Prop :=
  exists t : string,
    s = String.append r t
    /\ Forall (fun c => P c = true) (list_ascii_of_string t)
    /\ (forall c, last_char r = Some c -> P c = false).

(** The character class named by the specification text: whitespace
    and control characters. *)
Definition is_space_or_control (c : ascii) : bool := isspace c || iscntrl c.

End Label.
Import Label.

(** ** Hexadecimal rendering of ids *)

Module Hex.

(** One uppercase hexadecimal digit, for [d] in 0..15. *)
Definition hex_digit (d : Z) : ascii :=
  ascii_of_nat (Z.to_nat (if d <? 10 then 48 + d else 55 + d)).

(** Digits of an unsigned value under [std::hex << std::uppercase]:
    most significant first, no leading zero, at least one digit.
    [fuel] bounds the number of digits produced. *)
Fixpoint hex_digits (fuel : nat) (v : Z) (acc : string) : string :=
  match fuel with
  | O => acc
  | S fuel' =>
      let acc' := String (hex_digit (v mod 16)) acc in
      if v / 16 =? 0 then acc' else hex_digits fuel' (v / 16) acc'
  end.

(** A [uint32_t] has at most eight hexadecimal digits. *)
Definition to_hex_upper (v : Z) : string := hex_digits 8 v "".

(** [setw(width) << setfill(fill)] on the next insertion: the default
    adjustment is to the right, so the fill goes in front; a text at
    least [width] long is written as it is. *)
Definition pad_left (fill : ascii) (width : Z) (s : string) : string :=
  String.append
    (string_of_list_ascii
       (repeat fill (Z.to_nat (width - Z.of_nat (String.length s)))))
    s.

(** [hex_str(uint32_t value, int width = 4)]: the literal "0x" is
    inserted before [setw] takes effect, so only the digits are padded. *)
Definition hex_str (value : Z) (width : Z) : string :=
  String.append "0x" (pad_left "0" width (to_hex_upper (to_uint32 value))).

Definition default_width : Z := 4.

(** Reading a digit string back (used to state that nothing is lost). *)
Definition hex_digit_value (c : ascii) : option Z :=
  let n := code c in
  if (48 <=? n) && (n <=? 57) then Some (n - 48)
  else if (65 <=? n) && (n <=? 70) then Some (n - 55)
  else None.

Fixpoint hex_value_from (acc : Z) (s : string) : option Z :=
  match s with
  | EmptyString => Some acc
  | String c s' =>
      match hex_digit_value c with
      | Some d => hex_value_from (16 * acc + d) s'
      | None => None
      end
  end.

Definition hex_value (s : string) : option Z := hex_value_from 0 s.

(** An uppercase hexadecimal digit: 0-9 or A-F. *)
Definition is_upper_hex (c : ascii) : bool :=
  match hex_digit_value c with Some _ => true | None => false end.

(** [ds] is the digit string of [v]: uppercase hexadecimal digits that
    read back as [v], with no leading zero unless it is the only digit. *)
Record digits_of (v : Z) (ds : string) : Prop := {
  digits_upper : Forall (fun c => is_upper_hex c = true)
                        (list_ascii_of_string ds);
  digits_value : forall a,
      hex_value_from a ds
      = Some (a * 16 ^ Z.of_nat (String.length ds) + v);
  digits_some  : (1 <= String.length ds)%nat;
  digits_fit   : v < 16 ^ Z.of_nat (String.length ds);
  digits_tight : String.length ds = 1%nat
                 \/ 16 ^ (Z.of_nat (String.length ds) - 1) <= v
}.

End Hex.
Import Hex.

(** ** JSON documents (the tree handed to the serializer) *)

Module Json.

#[warnings="-register-all"] Inductive json : Type :=
| JNull
| JInt (z : Z)
| JFloat (f : spec_float)
| JString (s : string)
| JArray (items : list json)
| JObject (members : list (string * json)).

(** The members of an object are kept in the order of their keys, as in
    the [std::map] behind the library's object type: a new key goes
    before the first greater one, an existing key has its value
    replaced. *)
Fixpoint assoc_set (k : string) (v : json) (kvs : list (string * json))
  : list (string * json) :=
  match kvs with
  | [] => [(k, v)]
  | (k', v') :: rest =>
      match String.compare k k' with
      | Eq => (k, v) :: rest
      | Lt => (k, v) :: (k', v') :: rest
      | Gt => (k', v') :: assoc_set k v rest
      end
  end.

Fixpoint assoc_get (k : string) (kvs : list (string * json)) : option json :=
  match kvs with
  | [] => None
  | (k', v') :: rest => if String.eqb k k' then Some v' else assoc_get k rest
  end.

(** [j[k]] read: the member, or null when absent or not an object. *)
Definition member (k : string) (j : json) : json :=
  match j with
  | JObject kvs => match assoc_get k kvs with Some v => v | None => JNull end
  | _ => JNull
  end.

(** [j[k] = v]: a null value silently becomes an object first. *)
Definition set_member (k : string) (v : json) (j : json) : json :=
  match j with
  | JObject kvs => JObject (assoc_set k v kvs)
  | _ => JObject [(k, v)]
  end.

(** [j[a][b] = v]. *)
Definition set_member2 (a b : string) (v : json) (j : json) : json :=
  set_member a (set_member b v (member a j)) j.

(** [arr.push_back(v)] on an array. *)
Definition push_back (v : json) (arr : json) : json :=
  match arr with
  | JArray items => JArray (items ++ [v])
  | _ => JArray [v]
  end.

End Json.
Import Json.

(** ** Data model of the scanner *)

(** [float] values are only stored and copied by the scanner. *)
Definition float : Type := spec_float.
Definition float_zero : float := S754_zero false.

(** Modelled from the spec: [DabLabel] (backend, not part of these
    sources); only the text its [utf8_label()] returns is used. *)
Record DabLabel : Type := { utf8_label : string }.

(** Modelled from the spec: the engine's view of a service (backend
    type, not part of these sources): its numeric id and its label. *)
Record Service : Type := { serviceId : Z; serviceLabel : DabLabel }.

(** Modelled from the spec: a component of a service (backend type, not
    part of these sources); the scanner only passes it back to the
    engine. *)
Record ServiceComponent : Type := { componentNr : Z; subchannelId : Z }.

(** Modelled from the spec: a subchannel (backend type, not part of
    these sources). [subChId] is the sentinel [-1] when the subchannel
    is not valid; [sub_bitrate] is what [bitrate()] returns. *)
Record Subchannel : Type := { subChId : Z; sub_bitrate : Z }.

Record ServiceInfo : Type := {
  sid          : Z;        (* uint32_t *)
  label        : string;
  bitrate_kbps : Z         (* int *)
}.

Record ScanResult : Type := {
  channel        : string;
  frequency_hz   : Z;      (* uint32_t *)
  ensemble_label : string;
  ensemble_id    : Z;      (* uint16_t *)
  snr            : float;
  services       : list ServiceInfo
}.

(** The members under "Shared state updated from RadioReceiver
    callbacks"; all are read and written under [mtx]. *)
Record ScanState : Type := {
  signal_present : bool;
  synced         : bool;
  current_snr    : float;
  current_eid    : Z;      (* uint16_t *)
  current_label  : string;
  detected_sids  : gset Z  (* std::set<uint32_t> *)
}.

Record ChannelScanner : Type := {
  state   : ScanState;
  results : list ScanResult
}.

(** The values written by "Reset per-channel state" (also the in-class
    initializers). *)
Definition reset_state : ScanState := {|
  signal_present := false;
  synced         := false;
  current_snr    := float_zero;
  current_eid    := 0;
  current_label  := "";
  detected_sids  := ∅
|}.

Definition new_scanner : ChannelScanner :=
  {| state := reset_state; results := [] |}.

(** ** RadioControllerInterface callbacks *)

Inductive Notification : Type :=
| OnSNR (snr : float)
| OnSyncChange (isSync : Z)             (* char *)
| OnSignalPresence (isSignal : bool)
| OnServiceDetected (sId : Z)           (* uint32_t *)
| OnNewEnsemble (eId : Z)               (* uint16_t *)
| OnSetEnsembleLabel (label : DabLabel)
| OnIgnored.   (* the callbacks overridden with an empty body *)

Definition onSNR (snr : float) (s : ScanState) : ScanState :=
  {| signal_present := signal_present s; synced := synced s;
     current_snr := snr; current_eid := current_eid s;
     current_label := current_label s; detected_sids := detected_sids s |}.

(** [onSyncChange] and [onSignalPresence] end with [cv.notify_all()]: the
    wake-up of the waiting scanner is part of [wait_until] below.
    [isSync] is a [char]: [synced = (isSync != 0)]. *)
Definition onSyncChange (isSync : Z) (s : ScanState) : ScanState :=
  {| signal_present := signal_present s;
     synced := negb (char_bits isSync =? 0);
     current_snr := current_snr s; current_eid := current_eid s;
     current_label := current_label s; detected_sids := detected_sids s |}.

Definition onSignalPresence (isSignal : bool) (s : ScanState) : ScanState :=
  {| signal_present := isSignal; synced := synced s;
     current_snr := current_snr s; current_eid := current_eid s;
     current_label := current_label s; detected_sids := detected_sids s |}.

Definition onServiceDetected (sId : Z) (s : ScanState) : ScanState :=
  {| signal_present := signal_present s; synced := synced s;
     current_snr := current_snr s; current_eid := current_eid s;
     current_label := current_label s;
     detected_sids := {[ to_uint32 sId ]} ∪ detected_sids s |}.

Definition onNewEnsemble (eId : Z) (s : ScanState) : ScanState :=
  {| signal_present := signal_present s; synced := synced s;
     current_snr := current_snr s; current_eid := to_uint16 eId;
     current_label := current_label s; detected_sids := detected_sids s |}.

Definition onSetEnsembleLabel (l : DabLabel) (s : ScanState) : ScanState :=
  {| signal_present := signal_present s; synced := synced s;
     current_snr := current_snr s; current_eid := current_eid s;
     current_label := utf8_label l; detected_sids := detected_sids s |}.

(** One callback, run to completion under the lock. *)
Definition run_callback (n : Notification) (s : ScanState) : ScanState :=
  match n with
  | OnSNR snr => onSNR snr s
  | OnSyncChange b => onSyncChange b s
  | OnSignalPresence b => onSignalPresence b s
  | OnServiceDetected i => onServiceDetected i s
  | OnNewEnsemble e => onNewEnsemble e s
  | OnSetEnsembleLabel l => onSetEnsembleLabel l s
  | OnIgnored => s
  end.

(** Callbacks are serialized by [mtx]: a burst of them acts in order. *)
Definition run_callbacks (ns : list Notification) (s : ScanState) : ScanState :=
  fold_left (fun acc n => run_callback n acc) ns s.

(** [synced = false] before phase 2. *)
Definition clear_synced (s : ScanState) : ScanState :=
  {| signal_present := signal_present s; synced := false;
     current_snr := current_snr s; current_eid := current_eid s;
     current_label := current_label s; detected_sids := detected_sids s |}.

(** [cv.wait_until(lock, deadline, pred)], that is
    [while (!pred()) if (timed out) return pred(); return true;].
    [batches] lists what the engine delivers while the scanner is
    blocked, cut at the scanner's wake-ups: the predicate is evaluated
    on entry and after each batch, and the end of the list is the
    deadline. *)
Fixpoint wait_until (pred : ScanState -> bool) (s : ScanState)
         (batches : list (list Notification)) : ScanState :=
  if pred s then s
  else match batches with
       | [] => s
       | b :: bs => wait_until pred (run_callbacks b s) bs
       end.

(** The batches the wait lets through before it returns. *)
Fixpoint delivered_in_wait (pred : ScanState -> bool) (s : ScanState)
         (batches : list (list Notification)) : list Notification :=
  if pred s then []
  else match batches with
       | [] => []
       | b :: bs => b ++ delivered_in_wait pred (run_callbacks b s) bs
       end.

(** ** The decoding engine and the channel catalog, as seen by [run] *)

(** Modelled from the spec: [RadioReceiver] (backend, not part of these
    sources). An instance delivers notifications from its own thread only
    between [restart] and the return of [stop] (the drain guarantee);
    the callbacks take [mtx], so they interleave with the scanner only
    where the scanner does not hold it. One record fixes, for one channel
    attempt, what the two instances deliver in each such window and what
    the phase-2 instance answers to the collect-time queries. *)
Record ChannelEnv : Type := {
  (* phase 1 instance, restart(true) *)
  p1_pre    : list Notification;         (* before the scanner takes the lock *)
  p1_wait   : Z -> list (list Notification);
                                         (* while blocked, up to a deadline of so many seconds *)
  p1_post   : list Notification;         (* after [has_signal] is read, until stop() returns *)
  (* phase 2 instance, restart(false) *)
  p2_pre    : list Notification;         (* before the scanner takes the lock *)
  p2_wait   : Z -> list (list Notification);
                                         (* while blocked, up to a deadline of so many seconds *)
  p2_reread : list Notification;         (* between the wait and the read of [synced] *)
  p2_dwell  : list Notification;         (* 3 s dwell, up to the lock taken for the result *)
  p2_post   : list Notification;         (* after the scanner's last critical section
                                            (the result assembled, or [synced] read as
                                            false), until stop() returns *)
  getServiceList : list Service;
  getComponents  : Service -> list ServiceComponent;
  getSubchannel  : ServiceComponent -> Subchannel
}.

(** Modelled from the spec: the channel catalog behind [Channels]
    (various/channels.h, not part of these sources): an ordered sequence
    of (channel id, frequency) pairs, walked with a cursor; the empty
    string is the end sentinel. *)
Definition Catalog : Type := list (string * Z).

(** Modelled from the spec: [NUMBEROFCHANNELS] (various/channels.h, not
    part of these sources), the total number of channels in the catalog. *)
Definition NUMBEROFCHANNELS (catalog : Catalog) : Z :=
  Z.of_nat (length catalog).

(** Modelled from the spec: [Channels::firstChannel], the id of the
    first catalog entry (the end sentinel for an empty catalog). *)
Definition firstChannel (catalog : Catalog) : string :=
  match catalog with
  | [] => ""
  | c :: _ => fst c
  end.

(** Modelled from the spec: [Channels::getFrequency], the frequency
    listed for a channel id. *)
Fixpoint getFrequency (catalog : Catalog) (channelName : string) : Z :=
  match catalog with
  | [] => 0
  | (name, freq) :: rest =>
      if String.eqb name channelName then freq else getFrequency rest channelName
  end.

(** ** Observable actions of a run *)

Inductive Phase : Type := Presence | Sync.

(** A [RadioReceiver] instance: the visit that created it ([scanned])
    and the phase it serves. *)
Definition RxId : Type := (Z * Phase)%type.

Inductive Event : Type :=
| EvProgress (scanned total : Z) (channelName : string) (freq : Z)
| EvReset                               (* "Reset per-channel state" begins *)
| EvSetFrequency (freq : Z)
| EvInputReset
| EvSleep (ms : Z)
| EvRxCreate (rx : RxId)                (* construction of a RadioReceiver *)
| EvRxRestart (rx : RxId) (doScan : bool)
| EvRxStop (rx : RxId)
| EvRxDestroy (rx : RxId)               (* end of the instance's scope *)
| EvNotify (rx : RxId) (n : Notification)
| EvNoSignal
| EvNoSync
| EvFound (r : ScanResult)
| EvNextChannel.

(** An action together with the Scan State at the moment it is taken. *)
Definition Obs : Type := (Event * ScanState)%type.

(** ** The scanner's control flow: state passing with a trace *)

Definition M (A : Type) : Type :=
  ChannelScanner -> A * ChannelScanner * list Obs.

Definition ret {A : Type} (a : A) : M A := fun s => (a, s, []).

Definition bind {A B : Type} (m : M A) (k : A -> M B) : M B :=
  fun s =>
    let '(a, s1, t1) := m s in
    let '(b, s2, t2) := k a s1 in
    (b, s2, t1 ++ t2).

Declare Scope scan_scope.
Delimit Scope scan_scope with scan.
Notation "x <- m ;; k" := (bind m (fun x => k))
  (at level 100, m at next level, k at level 200, right associativity) : scan_scope.
Notation "m ;; k" := (bind m (fun _ => k))
  (at level 100, k at level 200, right associativity) : scan_scope.
Local Open Scope scan_scope.

Definition value {A : Type} (m : M A) (s : ChannelScanner) : A := fst (fst (m s)).
Definition exec {A : Type} (m : M A) (s : ChannelScanner) : ChannelScanner :=
  snd (fst (m s)).
Definition events {A : Type} (m : M A) (s : ChannelScanner) : list Obs :=
  snd (m s).

Definition emit (ev : Event) : M unit :=
  fun s => (tt, s, [(ev, state s)]).

(** A critical section that updates the shared state. *)
Definition locked (f : ScanState -> ScanState) : M unit :=
  fun s => (tt, {| state := f (state s); results := results s |}, []).

(** A critical section that reads the shared state. *)
Definition read {A : Type} (f : ScanState -> A) : M A :=
  fun s => (f (state s), s, []).

(** [results.push_back(result)]. *)
Definition push_result (r : ScanResult) : M unit :=
  fun s => (tt, {| state := state s; results := results s ++ [r] |}, []).

(** The engine instance [rx] delivers [ns], one callback at a time. *)
Fixpoint deliver (rx : RxId) (ns : list Notification) : M unit :=
  match ns with
  | [] => ret tt
  | n :: ns' => locked (run_callback n) ;; emit (EvNotify rx n) ;; deliver rx ns'
  end.

(** [cv.wait_until] with the callbacks of [rx] arriving meanwhile. *)
Fixpoint await (rx : RxId) (pred : ScanState -> bool)
         (batches : list (list Notification)) : M unit :=
  p <- read pred ;;
  if p then ret tt
  else match batches with
       | [] => ret tt
       | b :: bs => deliver rx b ;; await rx pred bs
       end.

(** ** Result assembly *)

(** "Bitrate from the first subchannel with a valid ID": the inner loop
    over [rx.getComponents(s)], starting from [bitrate_kbps = 0]. *)
Fixpoint first_valid_bitrate (e : ChannelEnv) (comps : list ServiceComponent)
  : Z :=
  match comps with
  | [] => 0
  | sc :: rest =>
      let sub := getSubchannel e sc in
      if negb (subChId sub =? -1) then sub_bitrate sub
      else first_valid_bitrate e rest
  end.

(** One iteration of the loop over [serviceList]. *)
Definition service_info (e : ChannelEnv) (s : Service) : ServiceInfo :=
  {| sid          := serviceId s;
     label        := trim_trailing (utf8_label (serviceLabel s));
     bitrate_kbps := first_valid_bitrate e (getComponents e s) |}.

(** The fields filled in under the lock, and the services appended by
    [push_back] in list order. *)
Definition assemble_result (channelName : string) (freq : Z)
           (e : ChannelEnv) (s : ScanState) : ScanResult :=
  {| channel        := channelName;
     frequency_hz   := to_uint32 freq;
     ensemble_label := trim_trailing (current_label s);
     ensemble_id    := current_eid s;
     snr            := current_snr s;
     services       := map (service_info e) (getServiceList e) |}.

(** ** The scan loop *)

(** The body of the [while] loop for one channel, up to and including
    the call of [channels.getNextChannel()] that ends each of its three
    paths ([EvNextChannel]; the id it returns is the cursor of
    [run_loop]). On the path without sync the [continue] leaves the scope
    of the phase-2 instance after that call, so its destructor runs
    last. *)
Definition scan_channel (scanned total : Z) (channelName : string) (freq : Z)
           (e : ChannelEnv) (timeout_per_channel_sec : Z) : M unit :=
  emit (EvProgress scanned total channelName freq) ;;
  (* Reset per-channel state *)
  emit EvReset ;;
  locked (fun _ => reset_state) ;;
  emit (EvSetFrequency freq) ;;
  emit EvInputReset ;;
  emit (EvSleep 500) ;;
  (* Phase 1: scan mode *)
  let rx1 : RxId := (scanned, Presence) in
  emit (EvRxCreate rx1) ;;
  emit (EvRxRestart rx1 true) ;;
  deliver rx1 (p1_pre e) ;;
  await rx1 signal_present (p1_wait e 3) ;;
  has_signal <- read signal_present ;;
  deliver rx1 (p1_post e) ;;
  emit (EvRxStop rx1) ;;
  emit (EvRxDestroy rx1) ;;
  if negb has_signal then
    emit EvNoSignal ;;
    emit EvNextChannel
  else
    (* Phase 2: full receive *)
    locked clear_synced ;;
    emit EvInputReset ;;
    let rx2 : RxId := (scanned, Sync) in
    emit (EvRxCreate rx2) ;;
    emit (EvRxRestart rx2 false) ;;
    deliver rx2 (p2_pre e) ;;
    await rx2 synced (p2_wait e timeout_per_channel_sec) ;;
    deliver rx2 (p2_reread e) ;;
    got_sync <- read synced ;;
    if negb got_sync then
      emit EvNoSync ;;
      deliver rx2 (p2_post e) ;;
      emit (EvRxStop rx2) ;;
      emit EvNextChannel ;;
      emit (EvRxDestroy rx2)
    else
      emit (EvSleep 3000) ;;
      deliver rx2 (p2_dwell e) ;;
      result <- read (assemble_result channelName freq e) ;;
      emit (EvFound result) ;;
      push_result result ;;
      deliver rx2 (p2_post e) ;;
      emit (EvRxStop rx2) ;;
      emit (EvRxDestroy rx2) ;;
      emit EvNextChannel.

(** The [while (!channelName.empty())] loop. The cursor of the local
    [Channels] object is the list [rest] of the channels still ahead:
    [getNextChannel()] yields the head of [rest], or the end sentinel
    when [rest] is empty. [env] gives the engine's behaviour at each
    visit, numbered by [scanned]. *)
Fixpoint run_loop (catalog : Catalog) (env : Z -> ChannelEnv)
         (timeout_per_channel_sec : Z)
         (rest : Catalog) (channelName : string) (scanned : Z) : M unit :=
  if String.eqb channelName "" then ret tt
  else
    let freq := getFrequency catalog channelName in
    let scanned := scanned + 1 in
    scan_channel scanned (NUMBEROFCHANNELS catalog) channelName freq
                 (env scanned) timeout_per_channel_sec ;;
    match rest with
    | [] => ret tt
    | c :: rest' =>
        run_loop catalog env timeout_per_channel_sec rest' (fst c) scanned
    end.

(** [ChannelScanner::run]. *)
Definition run (catalog : Catalog) (env : Z -> ChannelEnv)
           (timeout_per_channel_sec : Z) : M unit :=
  run_loop catalog env timeout_per_channel_sec
           (tl catalog) (firstChannel catalog) 0.

(** ** JSON report *)

Definition service_json (s : ServiceInfo) : json :=
  let svc := JNull in
  let svc := set_member "sid" (JString (hex_str (sid s) default_width)) svc in
  let svc := set_member "label" (JString (label s)) svc in
  let svc := set_member "bitrate_kbps" (JInt (bitrate_kbps s)) svc in
  svc.

Definition result_json (r : ScanResult) : json :=
  let entry := JNull in
  let entry := set_member "channel" (JString (channel r)) entry in
  let entry := set_member "frequency_hz" (JInt (frequency_hz r)) entry in
  let entry := set_member2 "ensemble" "id"
                 (JString (hex_str (ensemble_id r) default_width)) entry in
  let entry := set_member2 "ensemble" "label"
                 (JString (ensemble_label r)) entry in
  let entry := set_member "snr_db" (JFloat (snr r)) entry in
  let svc_arr :=
    fold_left (fun arr s => push_back (service_json s) arr)
              (services r) (JArray []) in
  set_member "services" svc_arr entry.

(** [ChannelScanner::printJsonReport]: the document [j] as the function
    has built it when it hands it to [dump(2)]; [tsbuf] is the formatted
    clock reading. The text [out << j.dump(2)] writes is made by the JSON
    library (libs/json.hpp, not part of these sources) and is not
    modelled. *)
Definition printJsonReport (catalog : Catalog) (tsbuf : string)
           (sc : ChannelScanner) : json :=
  let j := JNull in
  let j := set_member2 "scan" "timestamp" (JString tsbuf) j in
  let j := set_member2 "scan" "channels_scanned"
             (JInt (NUMBEROFCHANNELS catalog)) j in
  let j := set_member2 "scan" "ensembles_found"
             (JInt (static_cast_int (Z.of_nat (length (results sc))))) j in
  let arr :=
    fold_left (fun arr r => push_back (result_json r) arr)
              (results sc) (JArray []) in
  set_member "results" arr j.

(** ** What a channel attempt amounts to, read off the engine's behaviour *)

(** Shared state when the presence wait returns. *)
Definition presence_end (e : ChannelEnv) : ScanState :=
  wait_until signal_present (run_callbacks (p1_pre e) reset_state) (p1_wait e 3).

(** The flag the scanner reads as [has_signal]. *)
Definition has_signal (e : ChannelEnv) : bool :=
  signal_present (presence_end e).

(** Shared state when the sync wait is entered, and when it returns. *)
Definition sync_start (e : ChannelEnv) : ScanState :=
  run_callbacks (p2_pre e)
    (clear_synced (run_callbacks (p1_post e) (presence_end e))).

Definition sync_end (e : ChannelEnv) (timeout : Z) : ScanState :=
  wait_until synced (sync_start e) (p2_wait e timeout).

(** Shared state at the read of [synced], and the flag read as [got_sync]. *)
Definition sync_read (e : ChannelEnv) (timeout : Z) : ScanState :=
  run_callbacks (p2_reread e) (sync_end e timeout).

Definition got_sync (e : ChannelEnv) (timeout : Z) : bool :=
  synced (sync_read e timeout).

(** Shared state when the result is assembled. *)
Definition collect_state (e : ChannelEnv) (timeout : Z) : ScanState :=
  run_callbacks (p2_dwell e) (sync_read e timeout).

Definition scan_result (channelName : string) (freq : Z)
           (e : ChannelEnv) (timeout : Z) : ScanResult :=
  assemble_result channelName freq e (collect_state e timeout).

(** The results one channel attempt contributes. *)
Definition appended (channelName : string) (freq : Z)
           (e : ChannelEnv) (timeout : Z) : list ScanResult :=
  if has_signal e && got_sync e timeout
  then [scan_result channelName freq e timeout]
  else [].

(** A flag "became true within a wait": it holds at one of the moments
    the waiting scanner evaluates it, that is on entry or after one of
    the batches delivered before the deadline. *)
Definition became_true (pred : ScanState -> bool) (s : ScanState)
           (batches : list (list Notification)) : Prop :=
  exists n : nat,
    (n <= length batches)%nat
    /\ pred (run_callbacks (concat (firstn n batches)) s) = true.

(** The flag a burst of callbacks leaves in [synced]: what the last
    [onSyncChange] among them stores, or [dflt] when there is none. *)
Definition last_sync (dflt : bool) (ns : list Notification) : bool :=
  fold_left (fun acc n =>
               match n with
               | OnSyncChange isSync => negb (char_bits isSync =? 0)
               | _ => acc
               end) ns dflt.

(** The flag when the wait for [synced] returns: the waiter leaves at
    the first wake-up that finds it set, and at the deadline otherwise. *)
Fixpoint sync_after_wait (flag : bool) (batches : list (list Notification))
  : bool :=
  if flag then true
  else match batches with
       | [] => false
       | b :: bs => sync_after_wait (last_sync flag b) bs
       end.

(** The flag the scanner finds when it reads [synced] after the sync
    wait: [false] as phase 2 starts, then whatever the sync reports of
    the phase-2 instance make of it before the wait, during the wait and
    between the return of the wait and the read. *)
Definition sync_when_read (e : ChannelEnv) (timeout : Z) : bool :=
  last_sync
    (sync_after_wait (last_sync false (p2_pre e)) (p2_wait e timeout))
    (p2_reread e).

(** The first claim's condition for recording a channel, in the words of
    the specification: the attempt appends a ScanResult if and only if
    signal-present became true within the 3-second presence wait and
    synced became true within the sync wait of [timeout] seconds. *)
Definition recorded_iff_flags_became_true
           (scanned total : Z) (channelName : string) (freq : Z)
           (e : ChannelEnv) (timeout : Z) (s : ChannelScanner) : Prop :=
  (exists r,
      results (exec (scan_channel scanned total channelName freq e timeout) s)
      = results s ++ [r])
  <-> (became_true signal_present
                   (run_callbacks (p1_pre e) reset_state) (p1_wait e 3)
       /\ became_true synced (sync_start e) (p2_wait e timeout)).

(** The channels the loop visits, with their visit numbers. *)
Fixpoint visits_from (rest : Catalog) (channelName : string) (scanned : Z)
  : list (Z * string) :=
  if String.eqb channelName "" then []
  else
    (scanned + 1, channelName)
      :: match rest with
         | [] => []
         | c :: rest' => visits_from rest' (fst c) (scanned + 1)
         end.

Definition visits (catalog : Catalog) : list (Z * string) :=
  visits_from (tl catalog) (firstChannel catalog) 0.

(** What the visit [(k, name)] contributes to the result sequence. *)
Definition visit_results (catalog : Catalog) (env : Z -> ChannelEnv)
           (timeout : Z) (v : Z * string) : list ScanResult :=
  appended (snd v) (getFrequency catalog (snd v)) (env (fst v)) timeout.

(** ** Scenario data *)

Module Scenario.

Definition catalog : Catalog := [("5A", 174928000); ("5B", 176640000)].

Definition silent : ChannelEnv :=
  {| p1_pre := []; p1_wait := fun _ => []; p1_post := [];
     p2_pre := []; p2_wait := fun _ => []; p2_reread := [];
     p2_dwell := []; p2_post := [];
     getServiceList := [];
     getComponents := fun _ => [];
     getSubchannel := fun _ => {| subChId := -1; sub_bitrate := 0 |} |}.

Definition radio1 : Service :=
  {| serviceId := 0xC221; serviceLabel := {| utf8_label := "BBC Radio 1     " |} |}.

Definition bbc : ChannelEnv :=
  {| p1_pre := [];
     p1_wait := fun _ => [[OnSignalPresence true]];
     p1_post := [];
     p2_pre := [];
     p2_wait := fun _ =>
       [[OnNewEnsemble 0x4C86];
        [OnSetEnsembleLabel {| utf8_label := "BBC National DAB  " |}];
        [OnSyncChange 1]];
     p2_reread := [];
     p2_dwell := [OnServiceDetected 0xC221];
     p2_post := [];
     getServiceList := [radio1];
     getComponents := fun _ =>
       [{| componentNr := 0; subchannelId := 63 |};
        {| componentNr := 1; subchannelId := 2 |}];
     getSubchannel := fun sc =>
       if subchannelId sc =? 2
       then {| subChId := 2; sub_bitrate := 128 |}
       else {| subChId := -1; sub_bitrate := 0 |} |}.

(** Signal, then sync reported but never with a true flag; the engine
    reports once more while it is being stopped. *)
Definition nosync : ChannelEnv :=
  {| p1_pre := []; p1_wait := fun _ => [[OnSignalPresence true]]; p1_post := [];
     p2_pre := []; p2_wait := fun _ => [[OnSNR (S754_zero false)]; [OnSyncChange 0]];
     p2_reread := []; p2_dwell := []; p2_post := [OnSyncChange 1];
     getServiceList := [];
     getComponents := fun _ => [];
     getSubchannel := fun _ => {| subChId := -1; sub_bitrate := 0 |} |}.

Definition env (k : Z) : ChannelEnv :=
  if k =? 2 then bbc else silent.

(** The same engine, reporting other services as detected. *)
Definition bbc_other_detections : ChannelEnv :=
  {| p1_pre := [OnServiceDetected 0xBEEF];
     p1_wait := fun _ => [[OnServiceDetected 1; OnSignalPresence true]];
     p1_post := p1_post bbc;
     p2_pre := p2_pre bbc;
     p2_wait := p2_wait bbc;
     p2_reread := p2_reread bbc;
     p2_dwell := [];
     p2_post := [OnServiceDetected 0xC221; OnServiceDetected 0xC222];
     getServiceList := getServiceList bbc;
     getComponents := getComponents bbc;
     getSubchannel := getSubchannel bbc |}.

Definition env_other_detections (k : Z) : ChannelEnv :=
  if k =? 2 then bbc_other_detections else silent.

(** Signal, sync gained within the sync wait, and lost again before the
    scanner reads the flag. *)
Definition sync_lost : ChannelEnv :=
  {| p1_pre := []; p1_wait := fun _ => [[OnSignalPresence true]]; p1_post := [];
     p2_pre := []; p2_wait := fun _ => [[OnSyncChange 1]];
     p2_reread := [OnSyncChange 0]; p2_dwell := []; p2_post := [];
     getServiceList := [radio1];
     getComponents := getComponents bbc;
     getSubchannel := getSubchannel bbc |}.

(** Signal, no sync until the deadline of the sync wait, and sync gained
    before the scanner reads the flag. *)
Definition sync_late : ChannelEnv :=
  {| p1_pre := []; p1_wait := fun _ => [[OnSignalPresence true]]; p1_post := [];
     p2_pre := []; p2_wait := fun _ => [[OnSNR (S754_zero false)]];
     p2_reread := [OnSyncChange 1]; p2_dwell := []; p2_post := [];
     getServiceList := [radio1];
     getComponents := getComponents bbc;
     getSubchannel := getSubchannel bbc |}.

(** A scanner as a previous channel may leave it: label, ensemble id,
    flags and detected services of another multiplex. *)
Definition stale : ChannelScanner :=
  {| state :=
       run_callbacks
         [OnSignalPresence true; OnSyncChange 1; OnNewEnsemble 0xA001;
          OnSetEnsembleLabel {| utf8_label := "Channel A mux" |};
          OnServiceDetected 0xA111; OnServiceDetected 0xA222]
         reset_state;
     results := [] |}.

(** The letter A followed by the control character U+0001. *)
Definition label_with_control : string :=
  String "A" (String (ascii_of_nat 1) "").

End Scenario.

(** ** Observations on traces *)

Definition phase_eqb (p q : Phase) : bool :=
  match p, q with
  | Presence, Presence | Sync, Sync => true
  | _, _ => false
  end.

Definition rx_eqb (a b : RxId) : bool :=
  (fst a =? fst b) && phase_eqb (snd a) (snd b).

Definition is_stop (rx : RxId) (ev : Event) : bool :=
  match ev with EvRxStop rx' => rx_eqb rx rx' | _ => false end.

(** Phase 1 begins with the construction of its engine instance. *)
Definition at_phase1_begin (o : Obs) : bool :=
  match fst o with
  | EvRxCreate (_, Presence) => true
  | _ => false
  end.

(** The Scan State as it is each time phase 1 begins. *)
Definition phase1_snapshots (tr : list Obs) : list ScanState :=
  map snd (List.filter at_phase1_begin tr).

(** How often [stop()] is called on the instance [rx]. *)
Definition stop_count (rx : RxId) (evs : list Event) : nat :=
  length (List.filter (is_stop rx) evs).

(** A monitor for the engine discipline: [live] holds the instances
    started and not yet stopped. A restart of a live instance, a stop of
    an instance that is not live, and a state reset while an instance is
    live are violations. *)
Fixpoint monitor (live : list RxId) (evs : list Event) : option (list RxId) :=
  match evs with
  | [] => Some live
  | ev :: evs' =>
      match ev with
      | EvRxRestart rx _ =>
          if existsb (rx_eqb rx) live then None
          else monitor (rx :: live) evs'
      | EvRxStop rx =>
          if existsb (rx_eqb rx) live
          then monitor (List.filter (fun x => negb (rx_eqb rx x)) live) evs'
          else None
      | EvReset =>
          match live with
          | [] => monitor live evs'
          | _ :: _ => None
          end
      | _ => monitor live evs'
      end
  end.

(** A callback delivery, and traces that consist of nothing else. *)
Definition is_notify (o : Obs) : bool :=
  match fst o with EvNotify _ _ => true | _ => false end.

Definition callbacks_only (tr : list Obs) : Prop :=
  List.Forall (fun o => is_notify o = true) tr.

(** A notification of a synchronization-state change. *)
Definition is_sync_change (n : Notification) : bool :=
  match n with OnSyncChange _ => true | _ => false end.

(** Stops of the phase-2 instance of visit [k] that one visit accounts for. *)
Definition sync_stops (env : Z -> ChannelEnv) (k : Z) (v : Z * string) : nat :=
  if (k =? fst v) && has_signal (env (fst v)) then 1%nat else O.

(** ** Provenance of the result fields *)

(** Everything the two instances deliver before the result is assembled. *)
Definition delivered_before_collect (e : ChannelEnv) (timeout : Z)
  : list Notification :=
  p1_pre e
    ++ delivered_in_wait signal_present (run_callbacks (p1_pre e) reset_state)
                         (p1_wait e 3)
    ++ p1_post e
    ++ p2_pre e
    ++ delivered_in_wait synced (sync_start e) (p2_wait e timeout)
    ++ p2_reread e
    ++ p2_dwell e.

(** The text of the last ensemble-label notification in [ns], or [dflt]. *)
Definition last_label (dflt : string) (ns : list Notification) : string :=
  fold_left (fun acc n =>
               match n with
               | OnSetEnsembleLabel l => utf8_label l
               | _ => acc
               end) ns dflt.

(** A component whose subchannel has a valid (non-sentinel) id. *)
Definition valid_subchannel (e : ChannelEnv) (sc : ServiceComponent) : bool :=
  negb (subChId (getSubchannel e sc) =? -1).

(** ** Runs that differ only in service-detected notifications *)

Definition is_service_detected (n : Notification) : bool :=
  match n with OnServiceDetected _ => true | _ => false end.

Definition drop_sd (ns : list Notification) : list Notification :=
  List.filter (fun n => negb (is_service_detected n)) ns.

(** Two behaviours of the engine on a channel agree on every window once
    the service-detected notifications are taken out, and answer the
    collect-time queries alike. *)
Definition same_but_service_detected (e e' : ChannelEnv) : Prop :=
  drop_sd (p1_pre e) = drop_sd (p1_pre e')
  /\ (forall t, map drop_sd (p1_wait e t) = map drop_sd (p1_wait e' t))
  /\ drop_sd (p1_post e) = drop_sd (p1_post e')
  /\ drop_sd (p2_pre e) = drop_sd (p2_pre e')
  /\ (forall t, map drop_sd (p2_wait e t) = map drop_sd (p2_wait e' t))
  /\ drop_sd (p2_reread e) = drop_sd (p2_reread e')
  /\ drop_sd (p2_dwell e) = drop_sd (p2_dwell e')
  /\ drop_sd (p2_post e) = drop_sd (p2_post e')
  /\ getServiceList e = getServiceList e'
  /\ (forall s, getComponents e s = getComponents e' s)
  /\ (forall sc, getSubchannel e sc = getSubchannel e' sc).

(** The Scan State with the detected-service-id set blanked. *)
Definition forget_sids (s : ScanState) : ScanState :=
  {| signal_present := signal_present s; synced := synced s;
     current_snr := current_snr s; current_eid := current_eid s;
     current_label := current_label s; detected_sids := ∅ |}.

(** ** The scanner's own actions *)

Definition is_callback_event (ev : Event) : bool :=
  match ev with EvNotify _ _ => true | _ => false end.

(** The trace of a run without the callbacks: what the scanner itself
    does, in order. *)
Definition actions (tr : list Obs) : list Event :=
  List.filter (fun ev => negb (is_callback_event ev)) (map fst tr).

(** The actions of one pass through the loop body, by outcome. *)
Definition channel_actions (scanned total : Z) (channelName : string)
           (freq : Z) (e : ChannelEnv) (timeout : Z) : list Event :=
  [ EvProgress scanned total channelName freq; EvReset;
    EvSetFrequency freq; EvInputReset; EvSleep 500;
    EvRxCreate (scanned, Presence); EvRxRestart (scanned, Presence) true;
    EvRxStop (scanned, Presence); EvRxDestroy (scanned, Presence) ]
  ++ (if has_signal e then
        [ EvInputReset;
          EvRxCreate (scanned, Sync); EvRxRestart (scanned, Sync) false ]
        ++ (if got_sync e timeout then
              [ EvSleep 3000;
                EvFound (scan_result channelName freq e timeout);
                EvRxStop (scanned, Sync); EvRxDestroy (scanned, Sync);
                EvNextChannel ]
            else
              [ EvNoSync;
                EvRxStop (scanned, Sync); EvNextChannel;
                EvRxDestroy (scanned, Sync) ])
      else [ EvNoSignal; EvNextChannel ]).

(** The actions of the visit [(k, name)]. *)
Definition visit_actions (catalog : Catalog) (env : Z -> ChannelEnv)
           (timeout : Z) (v : Z * string) : list Event :=
  channel_actions (fst v) (NUMBEROFCHANNELS catalog) (snd v)
                  (getFrequency catalog (snd v)) (env (fst v)) timeout.

(** ** What a trace shows of the tuner, the delays and the diagnostics *)

(** The frequencies passed to [input.setFrequency], in order. *)
Definition tuned_frequencies (evs : list Event) : list Z :=
  flat_map (fun ev => match ev with EvSetFrequency f => [f] | _ => [] end) evs.

(** The calls of [input.reset()]. *)
Definition input_resets (evs : list Event) : list unit :=
  flat_map (fun ev => match ev with EvInputReset => [tt] | _ => [] end) evs.

(** The durations handed to [sleep_for], in milliseconds. *)
Definition sleeps (evs : list Event) : list Z :=
  flat_map (fun ev => match ev with EvSleep ms => [ms] | _ => [] end) evs.

Definition sum_ms (l : list Z) : Z := fold_right Z.add 0 l.

(** The outcome of a channel attempt, as the diagnostic line names it. *)
Inductive Outcome : Type :=
| NoSignal
| SignalButNoSync
| Found (r : ScanResult).

Definition diagnostics (evs : list Event) : list Outcome :=
  flat_map (fun ev => match ev with
                      | EvNoSignal => [NoSignal]
                      | EvNoSync => [SignalButNoSync]
                      | EvFound r => [Found r]
                      | _ => []
                      end) evs.

(** The outcome of an attempt, read off the engine's behaviour. *)
Definition channel_outcome (channelName : string) (freq : Z)
           (e : ChannelEnv) (timeout : Z) : Outcome :=
  if has_signal e then
    if got_sync e timeout then Found (scan_result channelName freq e timeout)
    else SignalButNoSync
  else NoSignal.

(** The head of each progress line: the counter [scanned] and the
    channel id. *)
Definition progress_lines (evs : list Event) : list (Z * string) :=
  flat_map (fun ev => match ev with
                      | EvProgress k _ name _ => [(k, name)]
                      | _ => []
                      end) evs.

(** The engine instances restarted, with the mode passed to [restart]. *)
Definition restarts (evs : list Event) : list (RxId * bool) :=
  flat_map (fun ev => match ev with
                      | EvRxRestart rx doScan => [(rx, doScan)]
                      | _ => []
                      end) evs.

(** A monitor for "one engine instance at a time": [live] is the
    instance restarted and not yet stopped, if any. *)
Fixpoint one_at_a_time (live : option RxId) (evs : list Event) : bool :=
  match evs with
  | [] => true
  | ev :: evs' =>
      match ev with
      | EvRxRestart rx _ =>
          match live with
          | None => one_at_a_time (Some rx) evs'
          | Some _ => false
          end
      | EvRxStop rx =>
          match live with
          | Some rx' => rx_eqb rx rx' && one_at_a_time None evs'
          | None => false
          end
      | _ => one_at_a_time live evs'
      end
  end.

(** ** Further readings of the engine's behaviour *)

(** A notification that reports synchronization as gained. *)
Definition raises_sync (n : Notification) : bool :=
  match n with
  | OnSyncChange isSync => negb (char_bits isSync =? 0)
  | _ => false
  end.

(** Everything the phase-2 instance delivers up to the read of [synced]. *)
Definition phase2_before_read (e : ChannelEnv) (timeout : Z)
  : list Notification :=
  p2_pre e ++ concat (p2_wait e timeout) ++ p2_reread e.

(** The last SNR sample in [ns], or [dflt]. *)
Definition last_snr (dflt : float) (ns : list Notification) : float :=
  fold_left (fun acc n => match n with OnSNR x => x | _ => acc end) ns dflt.

(** The last ensemble id announced in [ns], as a [uint16_t], or [dflt]. *)
Definition last_eid (dflt : Z) (ns : list Notification) : Z :=
  fold_left (fun acc n =>
               match n with OnNewEnsemble i => to_uint16 i | _ => acc end)
            ns dflt.

(** A label that does not end in a white-space character. *)
Definition well_trimmed (s : string) : Prop :=
  forall c, last_char s = Some c -> isspace c = false.

(** The channel ids up to the first empty one (the end sentinel). *)
Fixpoint until_sentinel (names : list string) : list string :=
  match names with
  | [] => []
  | n :: rest => if String.eqb n "" then [] else n :: until_sentinel rest
  end.

(** ** Reading the report back *)

(** The number behind a rendered id: the digits after "0x". *)
Definition parse_hex_str (s : string) : option Z :=
  match s with
  | String "0" (String "x" ds) => hex_value ds
  | _ => None
  end.

Definition decode_service (j : json) : option ServiceInfo :=
  match member "sid" j, member "label" j, member "bitrate_kbps" j with
  | JString h, JString l, JInt b =>
      match parse_hex_str h with
      | Some i => Some {| sid := i; label := l; bitrate_kbps := b |}
      | None => None
      end
  | _, _, _ => None
  end.

Fixpoint decode_services (js : list json) : option (list ServiceInfo) :=
  match js with
  | [] => Some []
  | j :: js' =>
      match decode_service j, decode_services js' with
      | Some s, Some ss => Some (s :: ss)
      | _, _ => None
      end
  end.

Definition decode_result (j : json) : option ScanResult :=
  match member "channel" j, member "frequency_hz" j,
        member "id" (member "ensemble" j),
        member "label" (member "ensemble" j),
        member "snr_db" j, member "services" j with
  | JString c, JInt f, JString h, JString l, JFloat x, JArray js =>
      match parse_hex_str h, decode_services js with
      | Some i, Some ss =>
          Some {| channel := c; frequency_hz := f; ensemble_label := l;
                  ensemble_id := i; snr := x; services := ss |}
      | _, _ => None
      end
  | _, _, _, _, _, _ => None
  end.

(** ** More scenario data *)

Module ScenarioExtra.

(** Sync is reported while the presence instance runs, never by the
    phase-2 instance. *)
Definition sync_only_in_phase1 : ChannelEnv :=
  {| p1_pre := [OnSyncChange 1];
     p1_wait := fun _ => [[OnSignalPresence true; OnSyncChange 1]];
     p1_post := [OnSyncChange 1];
     p2_pre := [OnSNR (S754_finite false 5 0)];
     p2_wait := fun _ => [[OnNewEnsemble 0x4C86]; [OnSyncChange 0]];
     p2_reread := [];
     p2_dwell := []; p2_post := [];
     getServiceList := [];
     getComponents := fun _ => [];
     getSubchannel := fun _ => {| subChId := -1; sub_bitrate := 0 |} |}.

(** The scenario engine with SNR samples and a change of ensemble id. *)
Definition bbc_with_samples : ChannelEnv :=
  {| p1_pre := p1_pre Scenario.bbc;
     p1_wait := fun _ => [[OnSNR (S754_finite false 3 0); OnSignalPresence true]];
     p1_post := p1_post Scenario.bbc;
     p2_pre := [OnNewEnsemble 0x1234];
     p2_wait := p2_wait Scenario.bbc;
     p2_reread := p2_reread Scenario.bbc;
     p2_dwell := [OnSNR (S754_finite false 7 1); OnNewEnsemble 0x14C86];
     p2_post := [OnSNR (S754_finite false 1 0); OnNewEnsemble 1];
     getServiceList := getServiceList Scenario.bbc;
     getComponents := getComponents Scenario.bbc;
     getSubchannel := getSubchannel Scenario.bbc |}.

End ScenarioExtra.

Definition decode_results (js : list json) : option (list ScanResult) :=
  fold_right
    (fun j acc =>
       match decode_result j, acc with
       | Some r, Some rs => Some (r :: rs)
       | _, _ => None
       end)
    (Some []) js.

(** The result sequence behind a report document. *)
Definition decode_report (j : json) : option (list ScanResult) :=
  match member "results" j with
  | JArray js => decode_results js
  | _ => None
  end.

(** A ScanResult whose ids fit the types of its fields. *)
Definition ids_in_range (r : ScanResult) : Prop :=
  0 <= ensemble_id r < 2 ^ 16
  /\ List.Forall (fun si => 0 <= sid si < 2 ^ 32) (services r).

(** ** The notifications the two waits depend on *)

Definition is_presence_report (n : Notification) : bool :=
  match n with OnSignalPresence _ => true | _ => false end.

Definition is_sync_report (n : Notification) : bool :=
  match n with OnSyncChange _ => true | _ => false end.

(** A notification that reports a signal as present. *)
Definition raises_presence (n : Notification) : bool :=
  match n with OnSignalPresence b => b | _ => false end.

(** Two behaviours of the engine on a channel deliver the same
    signal-presence reports while the scanner waits for presence, and the
    same sync reports from the phase-2 instance up to the read of
    [synced]; they may differ in everything else. *)
Definition same_flag_reports (e e' : ChannelEnv) (timeout : Z) : Prop :=
  List.filter is_presence_report (p1_pre e)
  = List.filter is_presence_report (p1_pre e')
  /\ map (List.filter is_presence_report) (p1_wait e 3)
     = map (List.filter is_presence_report) (p1_wait e' 3)
  /\ List.filter is_sync_report (p2_pre e)
     = List.filter is_sync_report (p2_pre e')
  /\ map (List.filter is_sync_report) (p2_wait e timeout)
     = map (List.filter is_sync_report) (p2_wait e' timeout)
  /\ List.filter is_sync_report (p2_reread e)
     = List.filter is_sync_report (p2_reread e').

(** * Properties *)

(** ** Machine integers *)

Lemma to_uint32_small z : 0 <= z < 2 ^ 32 -> to_uint32 z = z.
Proof. intros H. unfold to_uint32. now apply Z.mod_small. Qed.

Lemma static_cast_int_small z : 0 <= z <= INT_MAX -> static_cast_int z = z.
Proof.
  unfold static_cast_int, INT_MAX. intros H.
  rewrite Z.mod_small; lia.
Qed.

(** ** Strings as character lists *)

Section StringLists.

Lemma append_cons c x y :
  String.append (String c x) y = String c (String.append x y).
Proof. reflexivity. Qed.

Lemma append_nil_r x : String.append x "" = x.
Proof.
  induction x as [|c x IH]; [reflexivity|].
  now rewrite append_cons, IH.
Qed.

Lemma length_append x y :
  String.length (String.append x y) = (String.length x + String.length y)%nat.
Proof.
  induction x as [|c x IH]; [reflexivity|].
  rewrite append_cons. simpl. now rewrite IH.
Qed.

Lemma length_list_ascii s :
  String.length s = length (list_ascii_of_string s).
Proof. induction s as [|c s IH]; simpl; congruence. Qed.

Lemma list_ascii_append s1 s2 :
  list_ascii_of_string (String.append s1 s2)
  = list_ascii_of_string s1 ++ list_ascii_of_string s2.
Proof.
  induction s1 as [|c s1 IH]; simpl; [reflexivity|].
  rewrite IH. reflexivity.
Qed.

Lemma string_of_list_app l1 l2 :
  string_of_list_ascii (l1 ++ l2)
  = String.append (string_of_list_ascii l1) (string_of_list_ascii l2).
Proof.
  induction l1 as [|c l1 IH]; [reflexivity|].
  change (String c (string_of_list_ascii (l1 ++ l2))
          = String c (String.append (string_of_list_ascii l1)
                                    (string_of_list_ascii l2))).
  now rewrite IH.
Qed.

Lemma substring_firstn n s :
  substring 0 n s = string_of_list_ascii (firstn n (list_ascii_of_string s)).
Proof.
  revert s. induction n as [|n IH]; intros [|c s]; simpl; try reflexivity.
  now rewrite IH.
Qed.

Lemma prefix_append r t : String.prefix r (String.append r t) = true.
Proof.
  induction r as [|c r IH]; simpl.
  - now destruct t.
  - destruct (ascii_dec c c); [assumption | congruence].
Qed.

Lemma last_rev_head {A : Type} (l : list A) : last (rev l) = head l.
Proof. destruct l as [|a l]; simpl; [reflexivity | apply last_snoc]. Qed.

End StringLists.

(** ** Label trimming *)

Section Trim.

Lemma rfind_skipped_spaces rs :
  Forall (fun c => isspace c = true) (firstn (rfind_if_not_space rs) rs).
Proof.
  induction rs as [|c rs IH]; simpl; [constructor|].
  destruct (isspace c) eqn:Hc; simpl; [|constructor].
  constructor; assumption.
Qed.

Lemma rfind_stops_at_non_space rs c :
  head (skipn (rfind_if_not_space rs) rs) = Some c -> isspace c = false.
Proof.
  induction rs as [|c' rs IH]; simpl; [discriminate|].
  destruct (isspace c') eqn:Hc; simpl; [exact IH|].
  intros [= <-]. exact Hc.
Qed.

(** The characters kept and the characters cut, as lists. *)
Lemma trim_kept s :
  list_ascii_of_string (trim_trailing s)
  = rev (skipn (rfind_if_not_space (rev (list_ascii_of_string s)))
               (rev (list_ascii_of_string s))).
Proof.
  unfold trim_trailing, trim_base.
  rewrite substring_firstn, list_ascii_of_string_of_list_ascii.
  rewrite length_list_ascii.
  rewrite List.skipn_rev, rev_involutive. reflexivity.
Qed.

Lemma trim_strips_spaces s : strips_trailing_run isspace s (trim_trailing s).
Proof.
  set (l := list_ascii_of_string s).
  set (k := rfind_if_not_space (rev l)).
  exists (string_of_list_ascii (rev (firstn k (rev l)))).
  split; [|split].
  - rewrite <- (string_of_list_ascii_of_string (trim_trailing s)).
    rewrite trim_kept. fold l k.
    rewrite <- string_of_list_app, <- rev_app_distr.
    rewrite firstn_skipn, rev_involutive.
    subst l. now rewrite string_of_list_ascii_of_string.
  - rewrite list_ascii_of_string_of_list_ascii.
    apply List.Forall_rev, rfind_skipped_spaces.
  - intros c. unfold last_char. rewrite trim_kept. fold l k.
    rewrite last_rev_head. apply rfind_stops_at_non_space.
Qed.

(** A label that does not end in a space character is left alone. *)
Lemma trim_fixed r :
  (forall c, last_char r = Some c -> isspace c = false) ->
  trim_trailing r = r.
Proof.
  intros Hlast.
  rewrite <- (string_of_list_ascii_of_string (trim_trailing r)).
  rewrite trim_kept.
  set (l := list_ascii_of_string r) in *.
  assert (Hk : rfind_if_not_space (rev l) = O).
  { unfold last_char in Hlast. fold l in Hlast.
    rewrite <- (rev_involutive l), last_rev_head in Hlast.
    destruct (rev l) as [|c rs]; simpl in *; [reflexivity|].
    now rewrite (Hlast c eq_refl). }
  rewrite Hk. change (skipn O (rev l)) with (rev l).
  rewrite rev_involutive. subst l. apply string_of_list_ascii_of_string.
Qed.

End Trim.

(** ** Hexadecimal digits *)

Section HexDigits.

Lemma hex_digit_value_digit d :
  0 <= d < 16 -> hex_digit_value (hex_digit d) = Some d.
Proof.
  intros Hd.
  assert (Hcases : d = 0 \/ d = 1 \/ d = 2 \/ d = 3 \/ d = 4 \/ d = 5
                   \/ d = 6 \/ d = 7 \/ d = 8 \/ d = 9 \/ d = 10 \/ d = 11
                   \/ d = 12 \/ d = 13 \/ d = 14 \/ d = 15) by lia.
  repeat (destruct Hcases as [-> | Hcases]; [reflexivity|]).
  subst d. reflexivity.
Qed.

Lemma hex_value_from_app x y a :
  hex_value_from a (String.append x y)
  = match hex_value_from a x with
    | Some b => hex_value_from b y
    | None => None
    end.
Proof.
  revert a. induction x as [|c x IH]; intros a; [reflexivity|].
  rewrite append_cons. simpl.
  destruct (hex_digit_value c); [apply IH | reflexivity].
Qed.

Lemma append_assoc_char x c acc :
  String.append x (String c acc)
  = String.append (String.append x (String c "")) acc.
Proof.
  induction x as [|c' x IH]; [reflexivity|].
  now rewrite !append_cons, IH.
Qed.

Lemma hex_digits_spec fuel :
  forall v, 0 <= v < 16 ^ Z.of_nat fuel -> (0 < fuel)%nat ->
  exists ds, digits_of v ds
             /\ forall acc, hex_digits fuel v acc = String.append ds acc.
Proof.
  induction fuel as [|fuel IH]; intros v Hv Hfuel; [lia|].
  assert (Hd : 0 <= v mod 16 < 16) by (apply Z.mod_pos_bound; lia).
  assert (Hdiv : v = 16 * (v / 16) + v mod 16) by (apply Z.div_mod; lia).
  simpl hex_digits.
  destruct (v / 16 =? 0) eqn:Hq.
  - apply Z.eqb_eq in Hq.
    exists (String (hex_digit (v mod 16)) "").
    split; [|reflexivity].
    assert (Hsmall : v mod 16 = v) by lia.
    constructor; simpl.
    + constructor; [|constructor].
      unfold is_upper_hex. now rewrite hex_digit_value_digit.
    + intros a. rewrite hex_digit_value_digit by assumption.
      f_equal. lia.
    + lia.
    + lia.
    + now left.
  - apply Z.eqb_neq in Hq.
    assert (Hq0 : 0 <= v / 16) by (apply Z.div_pos; lia).
    assert (Hpow : 16 ^ Z.of_nat (S fuel) = 16 * 16 ^ Z.of_nat fuel).
    { rewrite Nat2Z.inj_succ, Z.pow_succ_r; lia. }
    assert (Hfuel' : (0 < fuel)%nat).
    { destruct fuel; [|lia]. simpl in Hpow. lia. }
    destruct (IH (v / 16)) as (ds & Hds & Heq); [lia | assumption |].
    destruct Hds as [Hup Hval Hsome Hfit Htight].
    exists (String.append ds (String (hex_digit (v mod 16)) "")).
    split.
    + assert (Hlen : Z.of_nat (String.length
                       (String.append ds (String (hex_digit (v mod 16)) "")))
                     = Z.of_nat (String.length ds) + 1).
      { rewrite length_append. simpl. lia. }
      assert (Hpow' : 16 ^ (Z.of_nat (String.length ds) + 1)
                      = 16 * 16 ^ Z.of_nat (String.length ds)).
      { rewrite Z.pow_add_r; lia. }
      constructor.
      * rewrite list_ascii_append. apply Forall_app. split; [assumption|].
        constructor; [|constructor].
        unfold is_upper_hex. now rewrite hex_digit_value_digit.
      * intros a. rewrite hex_value_from_app, Hval. simpl.
        rewrite hex_digit_value_digit by assumption.
        rewrite Hlen, Hpow'. f_equal. lia.
      * rewrite length_append. simpl. lia.
      * rewrite Hlen, Hpow'. lia.
      * right. rewrite Hlen.
        replace (Z.of_nat (String.length ds) + 1 - 1)
          with (Z.of_nat (String.length ds)) by lia.
        destruct Htight as [H1 | Hge].
        -- rewrite H1. simpl. lia.
        -- assert (Hstep : 16 ^ Z.of_nat (String.length ds)
                           = 16 * 16 ^ (Z.of_nat (String.length ds) - 1)).
           { rewrite <- Z.pow_succ_r by lia. f_equal. lia. }
           lia.
    + intros acc. rewrite Heq. apply append_assoc_char.
Qed.

Lemma to_hex_upper_spec v :
  0 <= v < 2 ^ 32 -> digits_of v (to_hex_upper v).
Proof.
  intros Hv. unfold to_hex_upper.
  destruct (hex_digits_spec 8 v) as (ds & Hds & Heq); [simpl; lia | lia |].
  rewrite Heq.
  now rewrite append_nil_r.
Qed.

End HexDigits.

(** ** Laws of the state-and-trace monad *)

Section MonadLaws.

Context {A B : Type}.

Lemma value_bind (m : M A) (k : A -> M B) s :
  value (bind m k) s = value (k (value m s)) (exec m s).
Proof.
  unfold value, exec, bind.
  destruct (m s) as [[a s1] t1]; simpl.
  destruct (k a s1) as [[b s2] t2]; reflexivity.
Qed.

Lemma exec_bind (m : M A) (k : A -> M B) s :
  exec (bind m k) s = exec (k (value m s)) (exec m s).
Proof.
  unfold value, exec, bind.
  destruct (m s) as [[a s1] t1]; simpl.
  destruct (k a s1) as [[b s2] t2]; reflexivity.
Qed.

Lemma events_bind (m : M A) (k : A -> M B) s :
  events (bind m k) s = events m s ++ events (k (value m s)) (exec m s).
Proof.
  unfold value, exec, events, bind.
  destruct (m s) as [[a s1] t1]; simpl.
  destruct (k a s1) as [[b s2] t2]; reflexivity.
Qed.

End MonadLaws.

Section Primitives.

Lemma exec_ret {A : Type} (a : A) s : exec (ret a) s = s.
Proof. reflexivity. Qed.

Lemma events_ret {A : Type} (a : A) s : events (ret a) s = [].
Proof. reflexivity. Qed.

Lemma exec_emit ev s : exec (emit ev) s = s.
Proof. reflexivity. Qed.

Lemma events_emit ev s : events (emit ev) s = [(ev, state s)].
Proof. reflexivity. Qed.

Lemma exec_locked f s :
  exec (locked f) s = {| state := f (state s); results := results s |}.
Proof. reflexivity. Qed.

Lemma events_locked f s : events (locked f) s = [].
Proof. reflexivity. Qed.

Lemma value_read {A : Type} (f : ScanState -> A) s :
  value (read f) s = f (state s).
Proof. reflexivity. Qed.

Lemma exec_read {A : Type} (f : ScanState -> A) s : exec (read f) s = s.
Proof. reflexivity. Qed.

Lemma events_read {A : Type} (f : ScanState -> A) s : events (read f) s = [].
Proof. reflexivity. Qed.

Lemma exec_push_result r s :
  exec (push_result r) s
  = {| state := state s; results := results s ++ [r] |}.
Proof. reflexivity. Qed.

Lemma events_push_result r s : events (push_result r) s = [].
Proof. reflexivity. Qed.

Lemma run_callbacks_app ns1 ns2 s :
  run_callbacks (ns1 ++ ns2) s = run_callbacks ns2 (run_callbacks ns1 s).
Proof. unfold run_callbacks. apply fold_left_app. Qed.

Lemma exec_deliver rx ns s :
  exec (deliver rx ns) s
  = {| state := run_callbacks ns (state s); results := results s |}.
Proof.
  revert s. induction ns as [|n ns IH]; intros s.
  - destruct s; reflexivity.
  - simpl deliver. rewrite !exec_bind, IH. reflexivity.
Qed.

Lemma exec_await rx pred batches s :
  exec (await rx pred batches) s
  = {| state := wait_until pred (state s) batches; results := results s |}.
Proof.
  revert s. induction batches as [|b bs IH]; intros s; simpl await;
    rewrite exec_bind, value_read, exec_read; simpl wait_until;
    destruct (pred (state s)); try (destruct s; reflexivity).
  rewrite exec_bind, IH, exec_deliver. reflexivity.
Qed.

(** What a wait lets through is what takes the state to where the
    wait leaves it. *)
Lemma wait_until_delivered pred s batches :
  wait_until pred s batches
  = run_callbacks (delivered_in_wait pred s batches) s.
Proof.
  revert s. induction batches as [|b bs IH]; intros s; simpl;
    destruct (pred s); try reflexivity.
  now rewrite run_callbacks_app, IH.
Qed.

End Primitives.

(** ** Traces made of callbacks only *)

Section CallbackTraces.

Lemma callbacks_deliver rx ns s : callbacks_only (events (deliver rx ns) s).
Proof.
  revert s. induction ns as [|n ns IH]; intros s; simpl deliver.
  - constructor.
  - rewrite !events_bind, events_locked, events_emit. simpl.
    constructor; [reflexivity | apply IH].
Qed.

Lemma callbacks_await rx pred batches s :
  callbacks_only (events (await rx pred batches) s).
Proof.
  revert s. induction batches as [|b bs IH]; intros s; simpl await;
    rewrite events_bind, value_read, exec_read, events_read; simpl;
    destruct (pred (state s)); try constructor.
  rewrite events_bind. apply List.Forall_app. split.
  - apply callbacks_deliver.
  - apply IH.
Qed.

Lemma callbacks_filter (f : Obs -> bool) tr :
  (forall o, is_notify o = true -> f o = false) ->
  callbacks_only tr -> List.filter f tr = [].
Proof.
  intros Hf Htr. induction Htr as [|o tr Ho _ IH]; simpl; [reflexivity|].
  now rewrite (Hf o Ho).
Qed.

End CallbackTraces.

(** ** One channel attempt *)

Create Rewrite HintDb scan.
#[local] Hint Rewrite @value_bind @exec_bind @events_bind @exec_ret @events_ret
  exec_emit events_emit exec_locked events_locked @value_read @exec_read
  @events_read exec_push_result events_push_result exec_deliver exec_await
  : scan.

Ltac scan_step := autorewrite with scan; cbn [state results fst snd].

Ltac unfold_attempt :=
  unfold appended, scan_result, collect_state, got_sync, sync_read, sync_end,
    sync_start, has_signal, presence_end in *.

Ltac case_flag :=
  match goal with
  | |- context [if negb ?b then _ else _] =>
      let H := fresh "Hflag" in destruct b eqn:H; cbn [negb andb]; cbv iota
  end.

Section ChannelAttempt.

Variables (scanned total : Z) (channelName : string) (freq : Z).
Variables (e : ChannelEnv) (timeout : Z).

Lemma scan_channel_results s :
  results (exec (scan_channel scanned total channelName freq e timeout) s)
  = results s ++ appended channelName freq e timeout.
Proof.
  unfold scan_channel. unfold_attempt. cbv zeta. scan_step.
  case_flag; scan_step.
  - case_flag; scan_step; [reflexivity|].
    now rewrite app_nil_r.
  - now rewrite app_nil_r.
Qed.

End ChannelAttempt.

(** ** The whole run *)

Section WholeRun.

Variables (catalog : Catalog) (env : Z -> ChannelEnv) (timeout : Z).

Lemma run_loop_results rest :
  forall channelName scanned s,
    results (exec (run_loop catalog env timeout rest channelName scanned) s)
    = results s
        ++ flat_map (visit_results catalog env timeout)
                    (visits_from rest channelName scanned).
Proof.
  induction rest as [|c rest IH]; intros channelName scanned s;
    simpl run_loop; simpl visits_from;
    destruct (String.eqb channelName ""); scan_step;
    try (now rewrite app_nil_r).
  - rewrite scan_channel_results. simpl. now rewrite app_nil_r.
  - rewrite IH, scan_channel_results. simpl flat_map.
    unfold visit_results at 2. simpl fst; simpl snd.
    now rewrite app_assoc.
Qed.

Lemma run_results s :
  results (exec (run catalog env timeout) s)
  = results s ++ flat_map (visit_results catalog env timeout) (visits catalog).
Proof. apply run_loop_results. Qed.

End WholeRun.

Section Waits.

Lemma wait_until_became_true pred batches :
  forall s,
    pred (wait_until pred s batches) = true <-> became_true pred s batches.
Proof.
  unfold became_true.
  induction batches as [|b bs IH]; intros s; simpl wait_until.
  - destruct (pred s) eqn:Hp.
    + split; [|now intros _]. intros _. exists O. split; [simpl; lia | exact Hp].
    + split; [congruence|]. intros (n & Hn & Hpn).
      destruct n; simpl in *; [congruence | lia].
  - destruct (pred s) eqn:Hp.
    + split; [|now intros _]. intros _. exists O. split; [simpl; lia | exact Hp].
    + rewrite IH. split.
      * intros (n & Hn & Hpn). exists (S n). split; [simpl; lia|].
        simpl. now rewrite run_callbacks_app.
      * intros (n & Hn & Hpn). destruct n as [|n]; [simpl in Hpn; congruence|].
        exists n. split; [simpl in Hn; lia|].
        simpl in Hpn. now rewrite run_callbacks_app in Hpn.
Qed.

Lemma synced_unchanged ns s :
  List.Forall (fun n => is_sync_change n = false) ns ->
  synced (run_callbacks ns s) = synced s.
Proof.
  intros Hns. revert s.
  induction Hns as [|n ns Hn _ IH]; intros s; [reflexivity|].
  change (run_callbacks (n :: ns) s) with (run_callbacks ns (run_callback n s)).
  rewrite IH. destruct n; simpl in *; congruence.
Qed.

End Waits.

Section Visits.

(** With no empty channel id in the catalog, the loop visits every
    catalog entry, in order. *)
Lemma visits_from_all rest :
  forall channelName scanned,
    channelName <> "" ->
    List.Forall (fun c => fst c <> "") rest ->
    map snd (visits_from rest channelName scanned)
    = channelName :: map fst rest.
Proof.
  induction rest as [|c rest IH]; intros channelName scanned Hname Hrest;
    simpl visits_from;
    (destruct (String.eqb_spec channelName "") as [Heq | _];
     [contradiction|]); [reflexivity|].
  simpl. f_equal.
  apply IH; [now inversion Hrest | now inversion Hrest].
Qed.

Lemma visits_all catalog :
  List.Forall (fun c => fst c <> "") catalog ->
  map snd (visits catalog) = map fst catalog.
Proof.
  intros Hcat. destruct catalog as [|c rest]; [reflexivity|].
  unfold visits. simpl.
  apply visits_from_all; now inversion Hcat.
Qed.

End Visits.

Section SyncFlag.

Lemma synced_run_callbacks ns :
  forall s, synced (run_callbacks ns s) = last_sync (synced s) ns.
Proof.
  induction ns as [|n ns IH]; intros s; [reflexivity|].
  change (run_callbacks (n :: ns) s) with (run_callbacks ns (run_callback n s)).
  rewrite IH. now destruct n.
Qed.

Lemma synced_wait_until batches :
  forall s,
    synced (wait_until synced s batches) = sync_after_wait (synced s) batches.
Proof.
  induction batches as [|b bs IH]; intros s; simpl;
    destruct (synced s) eqn:Hs; try assumption; try reflexivity.
  now rewrite IH, synced_run_callbacks, Hs.
Qed.

(** The flag read as [got_sync] is the one the phase-2 instance's sync
    reports determine, starting from the cleared flag. *)
Lemma got_sync_when_read e timeout :
  got_sync e timeout = sync_when_read e timeout.
Proof.
  unfold got_sync, sync_read, sync_end, sync_start, sync_when_read.
  now rewrite synced_run_callbacks, synced_wait_until, synced_run_callbacks.
Qed.

Lemma has_signal_became_true e :
  has_signal e = true
  <-> became_true signal_present
                  (run_callbacks (p1_pre e) reset_state) (p1_wait e 3).
Proof. unfold has_signal, presence_end. apply wait_until_became_true. Qed.

End SyncFlag.

(** Sync gained within the wait and lost before the read: both flags
    became true within their waits, and nothing is appended. *)
Example scenario_sync_lost :
  became_true signal_present
              (run_callbacks (p1_pre Scenario.sync_lost) reset_state)
              (p1_wait Scenario.sync_lost 3)
  /\ became_true synced (sync_start Scenario.sync_lost)
                 (p2_wait Scenario.sync_lost 10)
  /\ results (exec (scan_channel 1 2 "5A" 174928000 Scenario.sync_lost 10)
                   new_scanner) = [].
Proof.
  split; [|split]; [| |reflexivity];
    apply wait_until_became_true; reflexivity.
Qed.

(** Sync gained only after the wait has timed out: synced did not become
    true within the wait, and a ScanResult is appended. *)
Example scenario_sync_late :
  ~ became_true synced (sync_start Scenario.sync_late)
                (p2_wait Scenario.sync_late 10)
  /\ results (exec (scan_channel 1 2 "5A" 174928000 Scenario.sync_late 10)
                   new_scanner)
     = [scan_result "5A" 174928000 Scenario.sync_late 10].
Proof.
  split; [|reflexivity].
  intros H. apply wait_until_became_true in H. discriminate H.
Qed.

(** C1, as stated, fails in both directions, because the scanner reads
    [synced] again, in a critical section of its own, after the sync wait
    has returned. When sync is gained within the wait and lost before
    that read, both flags became true within their waits and nothing is
    appended; when sync is gained only between the deadline and that
    read, synced never became true within the wait and a ScanResult is
    appended all the same. *)
Lemma recorded_by_the_read_not_by_the_wait :
  (became_true signal_present
               (run_callbacks (p1_pre Scenario.sync_lost) reset_state)
               (p1_wait Scenario.sync_lost 3)
   /\ became_true synced (sync_start Scenario.sync_lost)
                  (p2_wait Scenario.sync_lost 10)
   /\ results (exec (scan_channel 1 2 "5A" 174928000 Scenario.sync_lost 10)
                    new_scanner) = []
   /\ ~ recorded_iff_flags_became_true
          1 2 "5A" 174928000 Scenario.sync_lost 10 new_scanner)
  /\ (~ became_true synced (sync_start Scenario.sync_late)
                    (p2_wait Scenario.sync_late 10)
      /\ results (exec (scan_channel 1 2 "5A" 174928000 Scenario.sync_late 10)
                       new_scanner)
         = [scan_result "5A" 174928000 Scenario.sync_late 10]
      /\ ~ recorded_iff_flags_became_true
             1 2 "5A" 174928000 Scenario.sync_late 10 new_scanner).
Proof.
  destruct scenario_sync_lost as (Hp & Hs & Hlost).
  destruct scenario_sync_late as (Hnot & Hlate).
  unfold recorded_iff_flags_became_true.
  repeat split; try assumption.
  - intros [_ Honly]. destruct (Honly (conj Hp Hs)) as (r & Hr).
    rewrite Hlost in Hr. discriminate Hr.
  - intros [Hif _]. apply Hnot, Hif. rewrite Hlate. eexists. reflexivity.
Qed.

(** C1, amended. Each pass through the loop body appends at most one
    ScanResult, and appends one exactly when signal-present became true
    within the 3-second presence wait (started from the reset state) and
    synced, cleared as phase 2 starts, is true when the scanner reads it
    after the sync wait bounded by the configured per-channel timeout:
    the flag is then what the sync reports of the phase-2 instance made
    of it up to that read, the wait having ended at the first wake-up
    that found it set. When no sync change is reported between the return
    of the wait and the read, this is the case exactly when synced became
    true within the wait. A channel failing either phase appends nothing,
    and the run goes on: its result sequence is what it held before
    followed by the contributions of all visited channels in order, and
    the visited channels are the whole catalog when no channel id is
    empty. *)
Theorem scan_results_one_per_synced_channel :
  forall (catalog : Catalog) (env : Z -> ChannelEnv) (timeout : Z)
         (s0 : ChannelScanner),
    (forall (scanned total : Z) (channelName : string) (freq : Z)
            (e : ChannelEnv) (s : ChannelScanner),
        let s' :=
          exec (scan_channel scanned total channelName freq e timeout) s in
        let presence_became_true :=
          became_true signal_present
                      (run_callbacks (p1_pre e) reset_state) (p1_wait e 3) in
        (results s' = results s \/ exists r, results s' = results s ++ [r])
        /\ ((exists r, results s' = results s ++ [r])
            <-> presence_became_true /\ sync_when_read e timeout = true)
        /\ (~ presence_became_true \/ sync_when_read e timeout = false ->
            results s' = results s)
        /\ (List.Forall (fun n => is_sync_change n = false) (p2_reread e) ->
            (sync_when_read e timeout = true
             <-> became_true synced (sync_start e) (p2_wait e timeout)))
        /\ (has_signal e = true <-> presence_became_true)
        /\ got_sync e timeout = sync_when_read e timeout)
    /\ results (exec (run catalog env timeout) s0)
       = results s0
           ++ flat_map (visit_results catalog env timeout) (visits catalog)
    /\ (List.Forall (fun c => fst c <> "") catalog ->
        map snd (visits catalog) = map fst catalog).
Proof.
  intros catalog env timeout s0.
  split; [|split; [apply run_results | apply visits_all]].
  intros scanned total channelName freq e s s' presence_became_true.
  subst s' presence_became_true.
  rewrite scan_channel_results. unfold appended.
  rewrite <- got_sync_when_read.
  pose proof (has_signal_became_true e) as Hp.
  split; [|split; [|split; [|split; [|split]]]].
  - destruct (has_signal e), (got_sync e timeout); simpl;
      rewrite ?app_nil_r; eauto.
  - rewrite <- Hp. split.
    + intros (r & Hr). apply app_inv_head in Hr.
      destruct (has_signal e), (got_sync e timeout); simpl in Hr;
        try discriminate; now split.
    + intros [-> ->]. simpl. eauto.
  - rewrite <- Hp. intros [Hno | ->].
    + destruct (has_signal e); [now contradiction Hno|].
      simpl. now rewrite app_nil_r.
    + rewrite andb_false_r. now rewrite app_nil_r.
  - intros Hquiet. unfold got_sync, sync_read.
    rewrite synced_unchanged by assumption.
    apply wait_until_became_true.
  - exact Hp.
  - reflexivity.
Qed.

(** ** The Scan State when phase 1 begins *)

Section PhaseOneSnapshots.

Lemma phase1_snapshots_app tr1 tr2 :
  phase1_snapshots (tr1 ++ tr2)
  = phase1_snapshots tr1 ++ phase1_snapshots tr2.
Proof. unfold phase1_snapshots. now rewrite List.filter_app, map_app. Qed.

Lemma phase1_snapshots_callbacks tr :
  callbacks_only tr -> phase1_snapshots tr = [].
Proof.
  intros Htr. unfold phase1_snapshots.
  rewrite callbacks_filter; [reflexivity | | assumption].
  intros [ev st]. unfold is_notify, at_phase1_begin. simpl.
  destruct ev; congruence.
Qed.

Lemma phase1_snapshots_deliver rx ns s :
  phase1_snapshots (events (deliver rx ns) s) = [].
Proof. apply phase1_snapshots_callbacks, callbacks_deliver. Qed.

Lemma phase1_snapshots_await rx pred batches s :
  phase1_snapshots (events (await rx pred batches) s) = [].
Proof. apply phase1_snapshots_callbacks, callbacks_await. Qed.

Lemma scan_channel_snapshots scanned total channelName freq e timeout s :
  phase1_snapshots
    (events (scan_channel scanned total channelName freq e timeout) s)
  = [reset_state].
Proof.
  unfold scan_channel. cbv zeta. scan_step.
  case_flag; scan_step; [case_flag; scan_step|];
    rewrite ?phase1_snapshots_app, ?phase1_snapshots_deliver,
      ?phase1_snapshots_await;
    reflexivity.
Qed.

Lemma run_loop_snapshots catalog env timeout rest :
  forall channelName scanned s,
    phase1_snapshots
      (events (run_loop catalog env timeout rest channelName scanned) s)
    = map (fun _ => reset_state) (visits_from rest channelName scanned).
Proof.
  induction rest as [|c rest IH]; intros channelName scanned s;
    simpl run_loop; simpl visits_from;
    destruct (String.eqb channelName ""); scan_step; try reflexivity;
    rewrite ?phase1_snapshots_app, scan_channel_snapshots, ?IH;
    reflexivity.
Qed.

End PhaseOneSnapshots.

(** C2. Each time the scanner begins phase 1 (it constructs the
    presence-detection engine instance), the Scan State holds the reset
    values: signal-present false, synced false, SNR 0, ensemble id 0,
    empty label, empty detected-service-id set. This holds once per
    visited channel, whatever the scanner held before the run and
    whatever the engine delivered during earlier channels. *)
Theorem phase1_begins_with_reset_state :
  forall (catalog : Catalog) (env : Z -> ChannelEnv) (timeout : Z)
         (s0 : ChannelScanner),
    phase1_snapshots (events (run catalog env timeout) s0)
    = map (fun _ => reset_state) (visits catalog)
    /\ List.Forall
         (fun st =>
            signal_present st = false /\ synced st = false
            /\ current_snr st = float_zero /\ current_eid st = 0
            /\ current_label st = "" /\ detected_sids st = ∅)
         (phase1_snapshots (events (run catalog env timeout) s0)).
Proof.
  intros catalog env timeout s0.
  assert (Hsnap : phase1_snapshots (events (run catalog env timeout) s0)
                  = map (fun _ => reset_state) (visits catalog))
    by apply run_loop_snapshots.
  split; [exact Hsnap|].
  rewrite Hsnap. apply List.Forall_forall. intros st Hst.
  apply in_map_iff in Hst. destruct Hst as (v & <- & _).
  repeat split.
Qed.

(** ** Engine instances are stopped before the next reset *)

Section EngineDiscipline.

Lemma rx_eqb_eq a b : rx_eqb a b = true <-> a = b.
Proof.
  destruct a as [ka pa], b as [kb pb]. unfold rx_eqb. simpl.
  rewrite andb_true_iff, Z.eqb_eq. split.
  - intros [-> Hp]. destruct pa, pb; simpl in Hp; congruence.
  - intros [= -> ->]. split; [reflexivity | now destruct pb].
Qed.

Lemma rx_eqb_refl a : rx_eqb a a = true.
Proof. now apply rx_eqb_eq. Qed.

Lemma monitor_app evs1 evs2 :
  forall live,
    monitor live (evs1 ++ evs2)
    = match monitor live evs1 with
      | Some live1 => monitor live1 evs2
      | None => None
      end.
Proof.
  induction evs1 as [|ev evs1 IH]; intros live; [reflexivity|].
  change ((ev :: evs1) ++ evs2) with (ev :: (evs1 ++ evs2)).
  destruct ev as [| | | | |?|rx ?|rx|?| | | | |]; simpl; rewrite ?IH;
    try reflexivity.
  - destruct live; reflexivity.
  - destruct (existsb (rx_eqb rx) live); reflexivity.
  - destruct (existsb (rx_eqb rx) live); reflexivity.
Qed.

Lemma monitor_callbacks tr live :
  callbacks_only tr -> monitor live (map fst tr) = Some live.
Proof.
  intros Htr. induction Htr as [|[ev st] tr Ho _ IH]; [reflexivity|].
  unfold is_notify in Ho. simpl in Ho.
  destruct ev; try discriminate. simpl. exact IH.
Qed.

Lemma monitor_deliver rx ns s live :
  monitor live (map fst (events (deliver rx ns) s)) = Some live.
Proof. apply monitor_callbacks, callbacks_deliver. Qed.

Lemma monitor_await rx pred batches s live :
  monitor live (map fst (events (await rx pred batches) s)) = Some live.
Proof. apply monitor_callbacks, callbacks_await. Qed.

Ltac monitor_step :=
  repeat first
    [ rewrite map_app
    | rewrite monitor_app
    | rewrite monitor_deliver
    | rewrite monitor_await
    | rewrite rx_eqb_refl
    | progress cbn [map fst monitor existsb List.filter negb orb] ].

Lemma scan_channel_monitor scanned total channelName freq e timeout s :
  monitor [] (map fst
    (events (scan_channel scanned total channelName freq e timeout) s))
  = Some [].
Proof.
  unfold scan_channel. cbv zeta. scan_step.
  case_flag; scan_step; [case_flag; scan_step|]; monitor_step; reflexivity.
Qed.

Lemma run_loop_monitor catalog env timeout rest :
  forall channelName scanned s,
    monitor [] (map fst
      (events (run_loop catalog env timeout rest channelName scanned) s))
    = Some [].
Proof.
  induction rest as [|c rest IH]; intros channelName scanned s;
    simpl run_loop; destruct (String.eqb channelName ""); scan_step;
    try reflexivity;
    rewrite ?map_app, !monitor_app, scan_channel_monitor; simpl;
    [reflexivity | apply IH].
Qed.

(** A live instance is stopped before any reset, or is still live. *)
Lemma monitor_live evs :
  forall live live' rx,
    monitor live evs = Some live' ->
    existsb (rx_eqb rx) live = true ->
    (exists j, nth_error evs j = Some (EvRxStop rx)
               /\ forall k, (k < j)%nat -> nth_error evs k <> Some EvReset)
    \/ existsb (rx_eqb rx) live' = true.
Proof.
  induction evs as [|ev evs IH]; intros live live' rx Hmon Hlive.
  - simpl in Hmon. injection Hmon as <-. now right.
  - assert (Hother :
      forall live1, monitor live1 evs = Some live' ->
                    existsb (rx_eqb rx) live1 = true ->
                    ev <> EvReset ->
        (exists j, nth_error (ev :: evs) j = Some (EvRxStop rx)
                   /\ forall k, (k < j)%nat ->
                                nth_error (ev :: evs) k <> Some EvReset)
        \/ existsb (rx_eqb rx) live' = true).
    { intros live1 Hmon1 Hlive1 Hev.
      destruct (IH _ _ _ Hmon1 Hlive1) as [(j & Hj & Hno) | Hstill];
        [left | now right].
      exists (S j). split; [exact Hj|].
      intros [|k] Hk; simpl; [congruence | apply Hno; lia]. }
    destruct ev as [| | | | |?|rx' ?|rx'|?| | | | |]; simpl in Hmon;
      try (apply (Hother live); [assumption | assumption | discriminate]).
    + destruct live; [discriminate Hlive | discriminate Hmon].
    + destruct (existsb (rx_eqb rx') live); [discriminate|].
      apply (Hother (rx' :: live)); [assumption | | discriminate].
      simpl. rewrite Hlive. apply orb_true_r.
    + destruct (existsb (rx_eqb rx') live) eqn:Hin; [|discriminate].
      destruct (rx_eqb rx' rx) eqn:Heq.
      * apply rx_eqb_eq in Heq. subst rx'. left. exists O.
        split; [reflexivity | intros k Hk; lia].
      * apply (Hother _ Hmon); [|discriminate].
        apply existsb_exists in Hlive. destruct Hlive as (x & Hx & Hrx).
        apply existsb_exists. exists x. split; [|assumption].
        apply List.filter_In. split; [assumption|].
        apply rx_eqb_eq in Hrx. subst x. now rewrite Heq.
Qed.

(** On an accepted trace every restart is followed by the stop of the
    same instance, with no reset in between. *)
Lemma monitor_restart_stopped evs :
  forall live i rx mode,
    monitor live evs = Some [] ->
    nth_error evs i = Some (EvRxRestart rx mode) ->
    exists j, (i < j)%nat
              /\ nth_error evs j = Some (EvRxStop rx)
              /\ forall k, (i < k < j)%nat -> nth_error evs k <> Some EvReset.
Proof.
  induction evs as [|ev evs IH]; intros live i rx mode Hmon Hi.
  - destruct i; discriminate.
  - destruct i as [|i].
    + simpl in Hi. injection Hi as ->. simpl in Hmon.
      destruct (existsb (rx_eqb rx) live); [discriminate|].
      destruct (monitor_live evs (rx :: live) [] rx Hmon) as [(j & Hj & Hno)|Hno].
      * simpl. now rewrite rx_eqb_refl.
      * exists (S j). split; [lia|]. split; [exact Hj|].
        intros [|k] Hk; [lia|]. simpl. apply Hno. lia.
      * discriminate.
    + simpl in Hi.
      assert (Hsub : exists live1, monitor live1 evs = Some []).
      { destruct ev as [| | | | |?|rx' ?|rx'|?| | | | |]; simpl in Hmon; eauto.
        - destruct live; [eauto | discriminate].
        - destruct (existsb (rx_eqb rx') live); [discriminate | eauto].
        - destruct (existsb (rx_eqb rx') live); [eauto | discriminate]. }
      destruct Hsub as (live1 & Hmon1).
      destruct (IH live1 i rx mode Hmon1 Hi) as (j & Hij & Hj & Hno).
      exists (S j). split; [lia|]. split; [exact Hj|].
      intros [|k] Hk; [lia|]. simpl. apply Hno. lia.
Qed.

Lemma stop_count_app rx evs1 evs2 :
  stop_count rx (evs1 ++ evs2)
  = (stop_count rx evs1 + stop_count rx evs2)%nat.
Proof. unfold stop_count. now rewrite List.filter_app, length_app. Qed.

Lemma stop_count_callbacks rx tr :
  callbacks_only tr -> stop_count rx (map fst tr) = O.
Proof.
  intros Htr. induction Htr as [|[ev st] tr Ho _ IH]; [reflexivity|].
  unfold is_notify in Ho. simpl in Ho.
  destruct ev; try discriminate. exact IH.
Qed.

Lemma stop_count_deliver rx rx' ns s :
  stop_count rx (map fst (events (deliver rx' ns) s)) = O.
Proof. apply stop_count_callbacks, callbacks_deliver. Qed.

Lemma stop_count_await rx rx' pred batches s :
  stop_count rx (map fst (events (await rx' pred batches) s)) = O.
Proof. apply stop_count_callbacks, callbacks_await. Qed.

Lemma stop_count_stop rx rx' (st : ScanState) :
  stop_count rx (map fst [(EvRxStop rx', st)])
  = if rx_eqb rx rx' then 1%nat else O.
Proof. unfold stop_count. simpl. now destruct (rx_eqb rx rx'). Qed.

Ltac count_step :=
  repeat first
    [ rewrite map_app
    | rewrite stop_count_app
    | rewrite stop_count_deliver
    | rewrite stop_count_await
    | rewrite stop_count_stop ].

(** The phase-2 instance of a visit is stopped once if it was started,
    that is if the presence phase succeeded, and never otherwise. *)
Lemma scan_channel_sync_stops k scanned total channelName freq e timeout s :
  stop_count (k, Sync) (map fst
    (events (scan_channel scanned total channelName freq e timeout) s))
  = if (k =? scanned) && has_signal e then 1%nat else O.
Proof.
  unfold scan_channel. unfold_attempt. cbv zeta. scan_step.
  assert (Hp : rx_eqb (k, Sync) (scanned, Presence) = false).
  { unfold rx_eqb. simpl. apply andb_false_r. }
  assert (Hs : rx_eqb (k, Sync) (scanned, Sync) = (k =? scanned)).
  { unfold rx_eqb. simpl. apply andb_true_r. }
  case_flag; scan_step; [case_flag; scan_step|];
    count_step; rewrite ?Hp, ?Hs; rewrite ?andb_true_r, ?andb_false_r;
    unfold stop_count; simpl; destruct (k =? scanned); reflexivity.
Qed.

Lemma visits_from_numbers rest :
  forall channelName scanned v,
    In v (visits_from rest channelName scanned) -> scanned < fst v.
Proof.
  induction rest as [|c rest IH]; intros channelName scanned v;
    simpl visits_from; destruct (String.eqb channelName "");
    simpl; try tauto.
  - intros [<- | []]. simpl. lia.
  - intros [<- | Hv]; [simpl; lia|]. apply IH in Hv. lia.
Qed.

Lemma run_loop_sync_stops catalog env timeout k rest :
  forall channelName scanned s,
    stop_count (k, Sync) (map fst
      (events (run_loop catalog env timeout rest channelName scanned) s))
    = list_sum (map (sync_stops env k)
                    (visits_from rest channelName scanned)).
Proof.
  induction rest as [|c rest IH]; intros channelName scanned s;
    simpl run_loop; simpl visits_from;
    destruct (String.eqb channelName ""); scan_step; try reflexivity;
    rewrite ?map_app, !stop_count_app, scan_channel_sync_stops, ?IH;
    unfold sync_stops; simpl; unfold stop_count; simpl;
    rewrite ?Nat.add_0_r; reflexivity.
Qed.

Lemma sync_stops_elsewhere env k vs :
  (forall v, In v vs -> fst v <> k) ->
  list_sum (map (sync_stops env k) vs) = O.
Proof.
  induction vs as [|v vs IH]; intros Hvs; [reflexivity|].
  simpl. rewrite IH by (intros w Hw; apply Hvs; now right).
  unfold sync_stops.
  destruct (Z.eqb_spec k (fst v)) as [->|]; [|reflexivity].
  exfalso. apply (Hvs v); [now left | reflexivity].
Qed.

Lemma sync_stops_visited env k rest :
  forall channelName scanned name,
    In (k, name) (visits_from rest channelName scanned) ->
    list_sum (map (sync_stops env k) (visits_from rest channelName scanned))
    = if has_signal (env k) then 1%nat else O.
Proof.
  induction rest as [|c rest IH]; intros channelName scanned name;
    simpl visits_from; destruct (String.eqb channelName "");
    simpl; try tauto.
  - intros [[= <- _] | []]. unfold sync_stops. simpl.
    rewrite Z.eqb_refl. simpl. destruct (has_signal _); reflexivity.
  - intros [[= <- _] | Hin].
    + unfold sync_stops at 1. simpl. rewrite Z.eqb_refl. simpl.
      rewrite sync_stops_elsewhere.
      * destruct (has_signal _); reflexivity.
      * intros v Hv. apply visits_from_numbers in Hv. lia.
    + rewrite (IH _ _ _ Hin). unfold sync_stops. simpl.
      apply visits_from_numbers in Hin. simpl in Hin.
      destruct (Z.eqb_spec k (scanned + 1)); [lia | reflexivity].
Qed.

Ltac find_event :=
  rewrite ?map_app, ?in_app_iff; cbn [map fst In]; auto 30.

Lemma scan_channel_restarts scanned total channelName freq e timeout s :
  let evs := map fst
    (events (scan_channel scanned total channelName freq e timeout) s) in
  In (EvRxRestart (scanned, Presence) true) evs
  /\ (has_signal e = true -> In (EvRxRestart (scanned, Sync) false) evs).
Proof.
  unfold scan_channel. unfold_attempt. cbv zeta. scan_step.
  case_flag; scan_step; [case_flag; scan_step|];
    (split; [|intros Hsig; try discriminate]); find_event.
Qed.

Lemma run_loop_restarts catalog env timeout rest :
  forall channelName scanned s k name,
    In (k, name) (visits_from rest channelName scanned) ->
    let evs := map fst
      (events (run_loop catalog env timeout rest channelName scanned) s) in
    In (EvRxRestart (k, Presence) true) evs
    /\ (has_signal (env k) = true -> In (EvRxRestart (k, Sync) false) evs).
Proof.
  induction rest as [|c rest IH]; intros channelName scanned s k name;
    simpl run_loop; simpl visits_from;
    destruct (String.eqb channelName ""); simpl In; try tauto;
    scan_step; cbv zeta; rewrite ?map_app, ?in_app_iff.
  - intros [[= <- _] | []].
    destruct (scan_channel_restarts (scanned + 1)
                (NUMBEROFCHANNELS catalog) channelName
                (getFrequency catalog channelName) (env (scanned + 1))
                timeout s) as [H1 H2].
    split; [now left | intros Hsig; left; now apply H2].
  - intros [[= <- _] | Hin].
    + destruct (scan_channel_restarts (scanned + 1)
                  (NUMBEROFCHANNELS catalog) channelName
                  (getFrequency catalog channelName) (env (scanned + 1))
                  timeout s) as [H1 H2].
      split; [now left | intros Hsig; left; now apply H2].
    + destruct (IH _ _ (exec (scan_channel (scanned + 1)
                  (NUMBEROFCHANNELS catalog) channelName
                  (getFrequency catalog channelName) (env (scanned + 1))
                  timeout) s) _ _ Hin) as [H1 H2].
      split; [right; exact H1 | intros Hsig; right; now apply H2].
Qed.

End EngineDiscipline.

(** C4. In the trace of a run, every engine instance that is started
    (the presence instance of each visited channel, and the sync instance
    of each channel whose presence phase succeeded) is stopped later on,
    and no per-channel state reset begins between its start and its stop:
    so it is stopped before the next channel's reset, on the no-signal,
    the sync-timeout and the collection path alike. When a channel has
    signal but no sync, [stop()] is called on its phase-2 instance
    exactly once. *)
Theorem engine_stopped_before_next_reset :
  forall (catalog : Catalog) (env : Z -> ChannelEnv) (timeout : Z)
         (s0 : ChannelScanner),
    let evs := map fst (events (run catalog env timeout) s0) in
    (forall i rx mode,
        nth_error evs i = Some (EvRxRestart rx mode) ->
        exists j, (i < j)%nat
                  /\ nth_error evs j = Some (EvRxStop rx)
                  /\ forall k, (i < k < j)%nat ->
                               nth_error evs k <> Some EvReset)
    /\ (forall k name,
          In (k, name) (visits catalog) ->
          In (EvRxRestart (k, Presence) true) evs
          /\ (has_signal (env k) = true ->
              In (EvRxRestart (k, Sync) false) evs))
    /\ (forall k name,
          In (k, name) (visits catalog) ->
          has_signal (env k) = true ->
          got_sync (env k) timeout = false ->
          stop_count (k, Sync) evs = 1%nat).
Proof.
  intros catalog env timeout s0 evs. split; [|split].
  - intros i rx mode Hi.
    apply (monitor_restart_stopped evs [] i rx mode); [|exact Hi].
    apply run_loop_monitor.
  - intros k name Hin. now apply (run_loop_restarts _ _ _ _ _ _ _ _ name).
  - intros k name Hin Hsig _. subst evs. unfold run.
    rewrite run_loop_sync_stops, (sync_stops_visited _ _ _ _ _ name Hin).
    now rewrite Hsig.
Qed.

(** ** Result assembly *)

Section Assembly.

Lemma first_valid_bitrate_find e comps :
  first_valid_bitrate e comps
  = match List.find (valid_subchannel e) comps with
    | Some sc => sub_bitrate (getSubchannel e sc)
    | None => 0
    end.
Proof.
  induction comps as [|sc comps IH]; simpl; [reflexivity|].
  unfold valid_subchannel at 1.
  destruct (negb (subChId (getSubchannel e sc) =? -1)); [reflexivity | exact IH].
Qed.

Lemma appended_singleton channelName freq e timeout r :
  appended channelName freq e timeout = [r] ->
  has_signal e = true /\ got_sync e timeout = true
  /\ r = scan_result channelName freq e timeout.
Proof.
  unfold appended.
  destruct (has_signal e), (got_sync e timeout); simpl; intros [= <-];
    repeat split.
Qed.

Lemma scan_channel_appends scanned total channelName freq e timeout s r :
  results (exec (scan_channel scanned total channelName freq e timeout) s)
  = results s ++ [r] ->
  appended channelName freq e timeout = [r].
Proof.
  rewrite scan_channel_results. intros H.
  now apply app_inv_head in H.
Qed.

Lemma current_label_run_callbacks ns :
  forall s, current_label (run_callbacks ns s) = last_label (current_label s) ns.
Proof.
  induction ns as [|n ns IH]; intros s; [reflexivity|].
  change (run_callbacks (n :: ns) s) with (run_callbacks ns (run_callback n s)).
  rewrite IH. destruct n; reflexivity.
Qed.

Lemma last_label_app dflt ns1 ns2 :
  last_label dflt (ns1 ++ ns2) = last_label (last_label dflt ns1) ns2.
Proof. unfold last_label. apply fold_left_app. Qed.

Lemma sync_start_label e :
  current_label (sync_start e)
  = last_label ""
      (p1_pre e
         ++ delivered_in_wait signal_present
              (run_callbacks (p1_pre e) reset_state) (p1_wait e 3)
         ++ p1_post e ++ p2_pre e).
Proof.
  unfold sync_start, presence_end.
  rewrite current_label_run_callbacks.
  change (current_label (clear_synced ?s)) with (current_label s).
  rewrite current_label_run_callbacks, (wait_until_delivered signal_present).
  rewrite !current_label_run_callbacks.
  rewrite !last_label_app. reflexivity.
Qed.

Lemma collect_label e timeout :
  current_label (collect_state e timeout)
  = last_label "" (delivered_before_collect e timeout).
Proof.
  unfold collect_state, sync_read, sync_end, delivered_before_collect.
  rewrite (wait_until_delivered synced).
  rewrite !current_label_run_callbacks, sync_start_label.
  rewrite !last_label_app. reflexivity.
Qed.

End Assembly.

(** C5. In a ScanResult appended for a channel, the services are those of
    the engine's service list, in its order; each carries the service's
    id, its trimmed label, and as bitrate the bitrate of the first of the
    service's components (in the order the engine returns them) whose
    subchannel id is not the sentinel -1, or 0 when there is no such
    component. *)
Theorem service_bitrate_first_valid_subchannel :
  forall (scanned total : Z) (channelName : string) (freq : Z)
         (e : ChannelEnv) (timeout : Z) (s : ChannelScanner) (r : ScanResult),
    results (exec (scan_channel scanned total channelName freq e timeout) s)
    = results s ++ [r] ->
    services r
    = map (fun sv =>
             {| sid := serviceId sv;
                label := trim_trailing (utf8_label (serviceLabel sv));
                bitrate_kbps :=
                  match List.find
                          (fun sc => negb (subChId (getSubchannel e sc) =? -1))
                          (getComponents e sv) with
                  | Some sc => sub_bitrate (getSubchannel e sc)
                  | None => 0
                  end |})
          (getServiceList e).
Proof.
  intros scanned total channelName freq e timeout s r Hres.
  apply scan_channel_appends, appended_singleton in Hres.
  destruct Hres as (_ & _ & ->).
  unfold scan_result, assemble_result. simpl.
  apply map_ext. intros sv. unfold service_info.
  now rewrite first_valid_bitrate_find.
Qed.

(** A run of the body on the scenario channel "5B": two components, the
    first unresolved, the second on a subchannel of 128 kbit/s. *)
Lemma service_bitrate_first_valid_subchannel_witness :
  results (exec (scan_channel 2 2 "5B" 176640000 Scenario.bbc 10) new_scanner)
  = results new_scanner ++ [scan_result "5B" 176640000 Scenario.bbc 10]
  /\ map bitrate_kbps (services (scan_result "5B" 176640000 Scenario.bbc 10))
     = [128].
Proof.
  split; [reflexivity|].
  rewrite (service_bitrate_first_valid_subchannel
             2 2 "5B" 176640000 Scenario.bbc 10 new_scanner
             (scan_result "5B" 176640000 Scenario.bbc 10) eq_refl).
  reflexivity.
Defined.

(** C3. Whatever the scanner holds when channel B's attempt starts (in
    particular a label and service ids left by any notification sequence
    of an earlier channel A), if B's attempt reaches sync then exactly
    one ScanResult is appended, and it is a function of B's channel
    entry, B's notifications and B's collect-time engine answers alone:
    its service ids are those of B's service list, and its label is the
    trimmed text of the last ensemble-label notification delivered
    during B's attempt, empty if there was none. *)
Theorem scan_result_isolated_from_previous_channel :
  forall (sA : ChannelScanner)
         (scanned total : Z) (channelName : string) (freq : Z)
         (eB : ChannelEnv) (timeout : Z),
    has_signal eB = true ->
    got_sync eB timeout = true ->
    exists r : ScanResult,
      results (exec (scan_channel scanned total channelName freq eB timeout) sA)
      = results sA ++ [r]
      /\ r = scan_result channelName freq eB timeout
      /\ map sid (services r) = map serviceId (getServiceList eB)
      /\ ensemble_label r
         = trim_trailing (last_label "" (delivered_before_collect eB timeout))
      /\ forall sA' : ChannelScanner,
          results (exec (scan_channel scanned total channelName freq eB timeout)
                        sA')
          = results sA' ++ [r].
Proof.
  intros sA scanned total channelName freq eB timeout Hsig Hsync.
  exists (scan_result channelName freq eB timeout).
  assert (Happ : appended channelName freq eB timeout
                 = [scan_result channelName freq eB timeout]).
  { unfold appended. now rewrite Hsig, Hsync. }
  repeat split.
  - now rewrite scan_channel_results, Happ.
  - unfold scan_result, assemble_result. simpl.
    rewrite map_map. reflexivity.
  - unfold scan_result, assemble_result. simpl.
    now rewrite collect_label.
  - intros sA'. now rewrite scan_channel_results, Happ.
Qed.

(** ** The detected-service-id set does not reach the results *)

Section ServiceDetected.

Lemma forget_sids_run_callbacks ns :
  forall s,
    forget_sids (run_callbacks ns s) = run_callbacks (drop_sd ns) (forget_sids s).
Proof.
  induction ns as [|n ns IH]; intros s; [reflexivity|].
  change (run_callbacks (n :: ns) s) with (run_callbacks ns (run_callback n s)).
  rewrite IH. destruct n; reflexivity.
Qed.

Lemma forget_sids_wait_until pred batches :
  (forall s, pred (forget_sids s) = pred s) ->
  forall s,
    forget_sids (wait_until pred s batches)
    = wait_until pred (forget_sids s) (map drop_sd batches).
Proof.
  intros Hpred. induction batches as [|b bs IH]; intros s; simpl;
    rewrite Hpred; destruct (pred s); try reflexivity.
  now rewrite IH, forget_sids_run_callbacks.
Qed.

Variables (e e' : ChannelEnv).
Hypothesis Hsame : same_but_service_detected e e'.

Lemma presence_end_same :
  forget_sids (presence_end e) = forget_sids (presence_end e').
Proof.
  destruct Hsame as (H1 & H2 & _).
  unfold presence_end.
  rewrite !forget_sids_wait_until, !forget_sids_run_callbacks by reflexivity.
  now rewrite H1, H2.
Qed.

Lemma sync_read_same timeout :
  forget_sids (sync_read e timeout) = forget_sids (sync_read e' timeout).
Proof.
  pose proof presence_end_same as Hp.
  destruct Hsame as (_ & _ & H3 & H4 & H5 & H6 & _).
  unfold sync_read, sync_end, sync_start.
  rewrite !forget_sids_run_callbacks.
  rewrite !forget_sids_wait_until by reflexivity.
  rewrite !forget_sids_run_callbacks.
  change (forget_sids (clear_synced ?s)) with (clear_synced (forget_sids s)).
  rewrite !forget_sids_run_callbacks.
  now rewrite Hp, H3, H4, H5, H6.
Qed.

Lemma collect_state_same timeout :
  forget_sids (collect_state e timeout)
  = forget_sids (collect_state e' timeout).
Proof.
  pose proof (sync_read_same timeout) as Hr.
  destruct Hsame as (_ & _ & _ & _ & _ & _ & H7 & _).
  unfold collect_state. rewrite !forget_sids_run_callbacks.
  now rewrite Hr, H7.
Qed.

Lemma first_valid_bitrate_same comps :
  first_valid_bitrate e comps = first_valid_bitrate e' comps.
Proof.
  destruct Hsame as (_ & _ & _ & _ & _ & _ & _ & _ & _ & _ & Hsub).
  induction comps as [|sc comps IH]; simpl; [reflexivity|].
  now rewrite Hsub, IH.
Qed.

Lemma assemble_result_same channelName freq s s' :
  forget_sids s = forget_sids s' ->
  assemble_result channelName freq e s
  = assemble_result channelName freq e' s'.
Proof.
  intros Hs.
  destruct Hsame as (_ & _ & _ & _ & _ & _ & _ & _ & Hlist & Hcomp & _).
  unfold assemble_result.
  assert (Hl : current_label s = current_label s')
    by (change (current_label (forget_sids s)
                = current_label (forget_sids s')); now rewrite Hs).
  assert (He : current_eid s = current_eid s')
    by (change (current_eid (forget_sids s)
                = current_eid (forget_sids s')); now rewrite Hs).
  assert (Hn : current_snr s = current_snr s')
    by (change (current_snr (forget_sids s)
                = current_snr (forget_sids s')); now rewrite Hs).
  rewrite Hl, He, Hn, Hlist. f_equal.
  apply map_ext. intros sv. unfold service_info.
  now rewrite Hcomp, first_valid_bitrate_same.
Qed.

Lemma appended_same channelName freq timeout :
  appended channelName freq e timeout = appended channelName freq e' timeout.
Proof.
  unfold appended, scan_result, has_signal, got_sync.
  change (signal_present (presence_end e))
    with (signal_present (forget_sids (presence_end e))).
  change (synced (sync_read e timeout))
    with (synced (forget_sids (sync_read e timeout))).
  rewrite presence_end_same, sync_read_same.
  rewrite (assemble_result_same channelName freq
             (collect_state e timeout) (collect_state e' timeout))
    by apply collect_state_same.
  reflexivity.
Qed.

End ServiceDetected.

(** C10. The detected-service-id set filled by service-detected
    notifications is never read: two runs over the same catalog, from
    the same scanner, in which the engine behaves alike at every visit once
    the service-detected notifications are left out (same other
    notifications in every window, same answers to the collect-time
    queries) leave identical result sequences and so identical reports. *)
Theorem service_detected_notifications_unobservable :
  forall (catalog : Catalog) (env env' : Z -> ChannelEnv) (timeout : Z)
         (s0 : ChannelScanner),
    (forall k, same_but_service_detected (env k) (env' k)) ->
    results (exec (run catalog env timeout) s0)
    = results (exec (run catalog env' timeout) s0)
    /\ forall tsbuf : string,
        printJsonReport catalog tsbuf (exec (run catalog env timeout) s0)
        = printJsonReport catalog tsbuf (exec (run catalog env' timeout) s0).
Proof.
  intros catalog env env' timeout s0 Hsame.
  assert (Hres : results (exec (run catalog env timeout) s0)
                 = results (exec (run catalog env' timeout) s0)).
  { rewrite !run_results. f_equal.
    apply flat_map_ext. intros v. unfold visit_results.
    apply appended_same, Hsame. }
  split; [exact Hres|].
  intros tsbuf. unfold printJsonReport. now rewrite Hres.
Qed.

(** ** Label normalization *)

(** C6, as stated, fails: a label ending in a control character that is
    not white space (here U+0001 after the letter A) is left as it is,
    so the trailing run of whitespace-and-control characters is not
    removed. *)
Lemma trailing_control_character_kept :
  trim_trailing Scenario.label_with_control = Scenario.label_with_control
  /\ last_char Scenario.label_with_control = Some (ascii_of_nat 1)
  /\ is_space_or_control (ascii_of_nat 1) = true
  /\ ~ strips_trailing_run is_space_or_control
        Scenario.label_with_control
        (trim_trailing Scenario.label_with_control).
Proof.
  repeat split.
  intros (t & _ & _ & Hlast).
  specialize (Hlast (ascii_of_nat 1) eq_refl).
  discriminate Hlast.
Qed.

(** C6 (amended). Label normalization removes exactly the maximal
    trailing run of white-space characters as [isspace] classifies them
    (space, \t, \n, \v, \f, \r) and nothing else: the result is a prefix
    of the input, what is cut consists of such characters only, what is
    left does not end in one (so leading and internal white space stay),
    and a label ending in any other character, control characters
    included, is returned unchanged. *)
Theorem trim_removes_trailing_whitespace_only :
  forall s : string,
    strips_trailing_run isspace s (trim_trailing s)
    /\ String.prefix (trim_trailing s) s = true
    /\ (forall c, last_char s = Some c -> isspace c = false ->
                  trim_trailing s = s)
    /\ (forall c, isspace c = true
                  <-> In (code c) [32; 9; 10; 11; 12; 13]).
Proof.
  intros s. split; [apply trim_strips_spaces|]. split; [|split].
  - destruct (trim_strips_spaces s) as (t & Heq & _).
    rewrite Heq at 2. apply prefix_append.
  - intros c Hc Hsp. apply trim_fixed. intros c' Hc'. congruence.
  - intros c. unfold isspace. simpl.
    rewrite orb_true_iff, andb_true_iff, Z.eqb_eq, !Z.leb_le. lia.
Qed.

(** C7. Label normalization is idempotent. *)
Theorem trim_idempotent :
  forall s : string, trim_trailing (trim_trailing s) = trim_trailing s.
Proof.
  intros s. apply trim_fixed.
  destruct (trim_strips_spaces s) as (t & _ & _ & Hlast). exact Hlast.
Qed.

(** ** Hexadecimal rendering *)

Section HexStr.

Lemma zeros_upper n :
  Forall (fun c => is_upper_hex c = true) (repeat "0"%char n).
Proof. induction n; simpl; constructor; [reflexivity | assumption]. Qed.

Lemma zeros_value n a :
  hex_value_from a (string_of_list_ascii (repeat "0"%char n))
  = Some (a * 16 ^ Z.of_nat n).
Proof.
  revert a. induction n as [|n IH]; intros a.
  - simpl. f_equal. lia.
  - change (hex_value_from a
              (string_of_list_ascii (repeat "0"%char (S n))))
      with (hex_value_from (16 * a + 0)
              (string_of_list_ascii (repeat "0"%char n))).
    rewrite IH, Nat2Z.inj_succ, Z.pow_succ_r by lia. f_equal. lia.
Qed.

Lemma length_string_of_list l :
  String.length (string_of_list_ascii l) = length l.
Proof. induction l as [|c l IH]; simpl; congruence. Qed.

Lemma pad_left_length width s :
  Z.of_nat (String.length (pad_left "0" width s))
  = Z.max width (Z.of_nat (String.length s)).
Proof.
  unfold pad_left.
  rewrite length_append, length_string_of_list, repeat_length. lia.
Qed.

End HexStr.

(** C8. For an id [v] in the range of [uint32_t], [hex_str] yields "0x"
    followed by the uppercase hexadecimal digits of [v], left-padded with
    '0' to four digits: the digits read back as [v] (nothing is cut off),
    there are at least four of them, more than four exactly when [v]
    does not fit 16 bits, and beyond four there is no leading zero.
    In particular 0xABCD gives "0xABCD", 0x1 gives "0x0001" and 0x12345
    gives "0x12345". *)
Theorem hex_str_zero_padded_uppercase :
  forall v : Z,
    0 <= v < 2 ^ 32 ->
    (exists ds : string,
        hex_str v default_width = String.append "0x" ds
        /\ Forall (fun c => is_upper_hex c = true) (list_ascii_of_string ds)
        /\ hex_value ds = Some v
        /\ (4 <= String.length ds)%nat
        /\ ((4 < String.length ds)%nat <-> 2 ^ 16 <= v)
        /\ (String.length ds = 4%nat
            \/ 16 ^ (Z.of_nat (String.length ds) - 1) <= v))
    /\ hex_str 0xABCD default_width = "0xABCD"
    /\ hex_str 0x1 default_width = "0x0001"
    /\ hex_str 0x12345 default_width = "0x12345".
Proof.
  intros v Hv. split; [|repeat split].
  destruct (to_hex_upper_spec v Hv) as [Hup Hval Hsome Hfit Htight].
  exists (pad_left "0" default_width (to_hex_upper v)).
  pose proof (pad_left_length default_width (to_hex_upper v)) as Hlen.
  unfold default_width in *.
  set (d := to_hex_upper v) in *.
  assert (Hbig : (4 < String.length d)%nat <-> 2 ^ 16 <= v).
  { split.
    - intros Hgt. destruct Htight as [H1 | Hge]; [lia|].
      assert (16 ^ 4 <= 16 ^ (Z.of_nat (String.length d) - 1))
        by (apply Z.pow_le_mono_r; lia).
      lia.
    - intros Hge.
      destruct (le_lt_dec (String.length d) 4) as [Hle | Hgt]; [|exact Hgt].
      assert (16 ^ Z.of_nat (String.length d) <= 16 ^ 4)
        by (apply Z.pow_le_mono_r; lia).
      lia. }
  split; [|split; [|split; [|split; [|split]]]].
  - unfold hex_str. now rewrite to_uint32_small.
  - unfold pad_left. rewrite list_ascii_append.
    rewrite list_ascii_of_string_of_list_ascii.
    apply Forall_app. split; [apply zeros_upper | exact Hup].
  - unfold hex_value, pad_left.
    rewrite hex_value_from_app, zeros_value, Hval. f_equal; lia.
  - lia.
  - rewrite <- Hbig. lia.
  - destruct (le_lt_dec (String.length d) 4) as [Hle | Hgt]; [left; lia|].
    right. replace (String.length (pad_left "0" 4 d)) with (String.length d)
      by lia.
    destruct Htight as [H1 | Hge]; [lia | exact Hge].
Qed.

Lemma hex_str_zero_padded_uppercase_witness :
  0 <= 0x4C86 < 2 ^ 32
  /\ exists ds : string,
      hex_str 0x4C86 default_width = String.append "0x" ds
      /\ hex_value ds = Some 0x4C86
      /\ (4 <= String.length ds)%nat.
Proof.
  split; [lia|].
  destruct (hex_str_zero_padded_uppercase 0x4C86 ltac:(lia))
    as [(ds & Heq & _ & Hval & Hlen & _) _].
  exists ds. repeat split; assumption.
Defined.

Lemma scan_result_isolated_from_previous_channel_witness :
  has_signal Scenario.bbc = true
  /\ got_sync Scenario.bbc 10 = true
  /\ exists r : ScanResult,
      results (exec (scan_channel 2 2 "5B" 176640000 Scenario.bbc 10)
                    Scenario.stale)
      = results Scenario.stale ++ [r]
      /\ map sid (services r) = [0xC221]
      /\ ensemble_label r = "BBC National DAB".
Proof.
  split; [reflexivity|]. split; [reflexivity|].
  destruct (scan_result_isolated_from_previous_channel
              Scenario.stale 2 2 "5B" 176640000 Scenario.bbc 10
              eq_refl eq_refl)
    as (r & Hres & Hr & Hsids & Hlabel & _).
  exists r. split; [exact Hres|]. split.
  - rewrite Hsids. reflexivity.
  - rewrite Hlabel. reflexivity.
Defined.

Lemma service_detected_notifications_unobservable_witness :
  (forall k, same_but_service_detected
               (Scenario.env k) (Scenario.env_other_detections k))
  /\ results (exec (run Scenario.catalog Scenario.env 10) new_scanner)
     = results (exec (run Scenario.catalog Scenario.env_other_detections 10)
                     new_scanner).
Proof.
  assert (Hsame : forall k, same_but_service_detected
                              (Scenario.env k)
                              (Scenario.env_other_detections k)).
  { intros k. unfold Scenario.env, Scenario.env_other_detections.
    destruct (k =? 2); repeat split. }
  split; [exact Hsame|].
  exact (proj1 (service_detected_notifications_unobservable
                  Scenario.catalog Scenario.env
                  Scenario.env_other_detections 10 new_scanner Hsame)).
Defined.

(** ** Report metadata *)

(** C9. In the report, [scan.channels_scanned] is the total number of
    catalog channels, whatever the results are, and
    [scan.ensembles_found] is the number of ScanResults in the result
    sequence (a count within the range of [int], to which it is cast). *)
Theorem report_metadata_counts :
  forall (catalog : Catalog) (tsbuf : string) (sc : ChannelScanner),
    Z.of_nat (length (results sc)) <= INT_MAX ->
    member "channels_scanned"
           (member "scan" (printJsonReport catalog tsbuf sc))
    = JInt (Z.of_nat (length catalog))
    /\ member "ensembles_found"
              (member "scan" (printJsonReport catalog tsbuf sc))
       = JInt (Z.of_nat (length (results sc))).
Proof.
  intros catalog tsbuf sc Hlen.
  unfold printJsonReport, set_member2, set_member, member. simpl.
  rewrite static_cast_int_small by lia.
  split; reflexivity.
Qed.

Lemma report_metadata_counts_witness :
  Z.of_nat (length (results
                      (exec (run Scenario.catalog Scenario.env 10)
                            new_scanner))) <= INT_MAX
  /\ member "channels_scanned"
            (member "scan"
               (printJsonReport Scenario.catalog "2026-03-01T12:00:00Z"
                  (exec (run Scenario.catalog Scenario.env 10) new_scanner)))
     = JInt 2
  /\ member "ensembles_found"
            (member "scan"
               (printJsonReport Scenario.catalog "2026-03-01T12:00:00Z"
                  (exec (run Scenario.catalog Scenario.env 10) new_scanner)))
     = JInt 1.
Proof.
  assert (Hlen : Z.of_nat (length (results
                   (exec (run Scenario.catalog Scenario.env 10)
                         new_scanner))) <= INT_MAX)
    by (rewrite run_results; discriminate).
  split; [exact Hlen|].
  exact (report_metadata_counts Scenario.catalog "2026-03-01T12:00:00Z"
           (exec (run Scenario.catalog Scenario.env 10) new_scanner) Hlen).
Defined.

(** ** The scenarios of the specification, run on the model *)

(** Scenario 1: "5A" is silent; "5B" delivers signal presence, ensemble
    id and label, sync, and one service on a 128 kbit/s subchannel. *)
Example scenario_two_channels :
  results (exec (run Scenario.catalog Scenario.env 10) new_scanner)
  = [ {| channel := "5B";
         frequency_hz := 176640000;
         ensemble_label := "BBC National DAB";
         ensemble_id := 0x4C86;
         snr := float_zero;
         services :=
           [ {| sid := 0xC221; label := "BBC Radio 1"; bitrate_kbps := 128 |} ]
      |} ].
Proof. reflexivity. Qed.

Example scenario_two_channels_report :
  printJsonReport Scenario.catalog "2026-03-01T12:00:00Z"
    (exec (run Scenario.catalog Scenario.env 10) new_scanner)
  = JObject
      [ ("results",
         JArray
           [ JObject
               [ ("channel", JString "5B");
                 ("ensemble",
                  JObject [ ("id", JString "0x4C86");
                            ("label", JString "BBC National DAB") ]);
                 ("frequency_hz", JInt 176640000);
                 ("services",
                  JArray
                    [ JObject [ ("bitrate_kbps", JInt 128);
                                ("label", JString "BBC Radio 1");
                                ("sid", JString "0xC221") ] ]);
                 ("snr_db", JFloat float_zero) ] ]);
        ("scan",
         JObject [ ("channels_scanned", JInt 2);
                   ("ensembles_found", JInt 1);
                   ("timestamp", JString "2026-03-01T12:00:00Z") ]) ].
Proof. reflexivity. Qed.

(** Scenario 2: signal presence, then no sync within the timeout: the
    diagnostic is "signal but no sync", nothing is appended, and the
    phase-2 instance is stopped once. *)
Example scenario_signal_but_no_sync :
  map fst (events (scan_channel 1 2 "5A" 174928000 Scenario.nosync 10)
                  new_scanner)
  = [ EvProgress 1 2 "5A" 174928000; EvReset; EvSetFrequency 174928000;
      EvInputReset; EvSleep 500;
      EvRxCreate (1, Presence); EvRxRestart (1, Presence) true;
      EvNotify (1, Presence) (OnSignalPresence true);
      EvRxStop (1, Presence); EvRxDestroy (1, Presence);
      EvInputReset;
      EvRxCreate (1, Sync); EvRxRestart (1, Sync) false;
      EvNotify (1, Sync) (OnSNR (S754_zero false));
      EvNotify (1, Sync) (OnSyncChange 0);
      EvNoSync;
      EvNotify (1, Sync) (OnSyncChange 1);
      EvRxStop (1, Sync); EvNextChannel; EvRxDestroy (1, Sync) ]
  /\ results (exec (scan_channel 1 2 "5A" 174928000 Scenario.nosync 10)
                   new_scanner) = [].
Proof. split; reflexivity. Qed.

(** * Further properties of the scanner *)

(** ** The scanner's own actions *)

Section Actions.

Lemma actions_app tr1 tr2 : actions (tr1 ++ tr2) = actions tr1 ++ actions tr2.
Proof. unfold actions. now rewrite map_app, List.filter_app. Qed.

Lemma actions_callbacks tr : callbacks_only tr -> actions tr = [].
Proof.
  intros Htr. unfold actions.
  induction Htr as [|[ev st] tr Ho _ IH]; [reflexivity|].
  unfold is_notify in Ho. simpl in Ho.
  destruct ev; try discriminate. exact IH.
Qed.

Lemma actions_deliver rx ns s : actions (events (deliver rx ns) s) = [].
Proof. apply actions_callbacks, callbacks_deliver. Qed.

Lemma actions_await rx pred batches s :
  actions (events (await rx pred batches) s) = [].
Proof. apply actions_callbacks, callbacks_await. Qed.

Lemma scan_channel_actions scanned total channelName freq e timeout s :
  actions (events (scan_channel scanned total channelName freq e timeout) s)
  = channel_actions scanned total channelName freq e timeout.
Proof.
  unfold scan_channel, channel_actions. unfold_attempt. cbv zeta. scan_step.
  case_flag; scan_step; [case_flag; scan_step|];
    rewrite ?actions_app, ?actions_deliver, ?actions_await;
    reflexivity.
Qed.

Lemma run_loop_actions catalog env timeout rest :
  forall channelName scanned s,
    actions (events (run_loop catalog env timeout rest channelName scanned) s)
    = flat_map (visit_actions catalog env timeout)
               (visits_from rest channelName scanned).
Proof.
  induction rest as [|c rest IH]; intros channelName scanned s;
    simpl run_loop; simpl visits_from;
    destruct (String.eqb channelName ""); scan_step; try reflexivity;
    rewrite ?actions_app, scan_channel_actions, ?IH;
    simpl flat_map; unfold visit_actions; simpl fst; simpl snd;
    rewrite <- ?app_assoc, ?app_nil_r; reflexivity.
Qed.

Lemma run_actions catalog env timeout s0 :
  actions (events (run catalog env timeout) s0)
  = flat_map (visit_actions catalog env timeout) (visits catalog).
Proof. apply run_loop_actions. Qed.

(** An observation that ignores callbacks can be made on the actions. *)
Lemma flat_map_actions {A : Type} (f : Event -> list A) tr :
  (forall rx n, f (EvNotify rx n) = []) ->
  flat_map f (map fst tr) = flat_map f (actions tr).
Proof.
  intros Hf. unfold actions.
  induction (map fst tr) as [|ev evs IH]; [reflexivity|].
  simpl. destruct ev; simpl; rewrite ?Hf, IH; reflexivity.
Qed.

Lemma flat_map_step {A B : Type} (f : A -> list B) x l :
  flat_map f (x :: l) = f x ++ flat_map f l.
Proof. reflexivity. Qed.

Lemma flat_map_flat_map {A B C : Type} (f : B -> list C) (g : A -> list B) l :
  flat_map f (flat_map g l) = flat_map (fun x => flat_map f (g x)) l.
Proof.
  induction l as [|x l IH]; [reflexivity|].
  simpl. now rewrite flat_map_app, IH.
Qed.

Lemma observe_run {A : Type} (f : Event -> list A) catalog env timeout s0 :
  (forall rx n, f (EvNotify rx n) = []) ->
  flat_map f (map fst (events (run catalog env timeout) s0))
  = flat_map (fun v => flat_map f (visit_actions catalog env timeout v))
             (visits catalog).
Proof.
  intros Hf. rewrite (flat_map_actions f _ Hf), run_actions.
  apply flat_map_flat_map.
Qed.

End Actions.

(** ** Tuner commands, delays and diagnostics of a run *)

Section RunObservations.

Variables (catalog : Catalog) (env : Z -> ChannelEnv) (timeout : Z).

Lemma visit_tuned v :
  tuned_frequencies (visit_actions catalog env timeout v)
  = [getFrequency catalog (snd v)].
Proof.
  unfold visit_actions, channel_actions, tuned_frequencies.
  destruct (has_signal _); [destruct (got_sync _ _)|]; reflexivity.
Qed.

Lemma visit_input_resets v :
  input_resets (visit_actions catalog env timeout v)
  = tt :: (if has_signal (env (fst v)) then [tt] else []).
Proof.
  unfold visit_actions, channel_actions, input_resets.
  destruct (has_signal _); [destruct (got_sync _ _)|]; reflexivity.
Qed.

Lemma visit_sleeps v :
  sleeps (visit_actions catalog env timeout v)
  = 500 :: map (fun _ => 3000) (visit_results catalog env timeout v).
Proof.
  unfold visit_actions, channel_actions, sleeps, visit_results, appended.
  destruct (has_signal _); [destruct (got_sync _ _)|]; reflexivity.
Qed.

Lemma visit_diagnostics v :
  diagnostics (visit_actions catalog env timeout v)
  = [channel_outcome (snd v) (getFrequency catalog (snd v))
                     (env (fst v)) timeout].
Proof.
  unfold visit_actions, channel_actions, diagnostics, channel_outcome.
  destruct (has_signal _); [destruct (got_sync _ _)|]; reflexivity.
Qed.

Lemma visit_progress v :
  progress_lines (visit_actions catalog env timeout v) = [v].
Proof.
  unfold visit_actions, channel_actions, progress_lines.
  destruct v as [k name].
  destruct (has_signal _); [destruct (got_sync _ _)|]; reflexivity.
Qed.

Lemma flat_map_singleton {A B : Type} (f : A -> B) (g : A -> list B) l :
  (forall x, g x = [f x]) -> flat_map g l = map f l.
Proof.
  intros Hg. induction l as [|x l IH]; [reflexivity|].
  simpl. now rewrite Hg, IH.
Qed.


Lemma sum_ms_app l1 l2 : sum_ms (l1 ++ l2) = sum_ms l1 + sum_ms l2.
Proof.
  unfold sum_ms. induction l1 as [|x l1 IH]; simpl; [reflexivity | lia].
Qed.

Lemma sum_ms_dwells (rs : list ScanResult) :
  sum_ms (map (fun _ => 3000) rs) = 3000 * Z.of_nat (length rs).
Proof.
  unfold sum_ms. induction rs as [|r rs IH]; [reflexivity|].
  cbn [map fold_right length]. rewrite IH. lia.
Qed.

Lemma sleeps_of_visits l :
  sum_ms (flat_map
            (fun v =>
               flat_map (fun ev => match ev with EvSleep ms => [ms] | _ => [] end)
                        (visit_actions catalog env timeout v)) l)
  = 500 * Z.of_nat (length l)
    + 3000 * Z.of_nat (length (flat_map (visit_results catalog env timeout) l)).
Proof.
  induction l as [|v l IH]; [reflexivity|].
  rewrite !flat_map_step, sum_ms_app, length_app, IH.
  pose proof (visit_sleeps v) as Hv. unfold sleeps in Hv. rewrite Hv.
  change (sum_ms (500 :: ?l)) with (500 + sum_ms l).
  rewrite sum_ms_dwells. cbn [length]. lia.
Qed.

Lemma visits_from_indices rest :
  forall channelName scanned,
    map fst (visits_from rest channelName scanned)
    = map (fun i => scanned + Z.of_nat i)
          (seq 1 (length (visits_from rest channelName scanned))).
Proof.
  induction rest as [|c rest IH]; intros channelName scanned;
    simpl visits_from; destruct (String.eqb channelName "");
    try reflexivity.
  cbn [map length fst seq]. f_equal.
  rewrite IH, <- (seq_shift _ 1), map_map.
  apply map_ext. intros i. lia.
Qed.

End RunObservations.

(** X1. The tuner is retuned exactly once per visited channel, in
    visiting order, to the frequency the catalog lists for that channel;
    its buffers are reset once per visited channel and once more for each
    channel on which a signal was found. *)
Theorem tuner_commands_per_channel :
  forall (catalog : Catalog) (env : Z -> ChannelEnv) (timeout : Z)
         (s0 : ChannelScanner),
    let evs := map fst (events (run catalog env timeout) s0) in
    tuned_frequencies evs
    = map (fun v => getFrequency catalog (snd v)) (visits catalog)
    /\ length (input_resets evs)
       = (length (visits catalog)
          + length (List.filter (fun v => has_signal (env (fst v)))
                                (visits catalog)))%nat.
Proof.
  intros catalog env timeout s0 evs. subst evs. split.
  - unfold tuned_frequencies. rewrite observe_run by reflexivity.
    apply flat_map_singleton. intros v.
    apply (visit_tuned catalog env timeout v).
  - unfold input_resets. rewrite observe_run by reflexivity.
    induction (visits catalog) as [|v l IH]; [reflexivity|].
    rewrite flat_map_step, length_app, IH.
    pose proof (visit_input_resets catalog env timeout v) as Hv.
    unfold input_resets in Hv. rewrite Hv. simpl.
    destruct (has_signal (env (fst v))); simpl; lia.
Qed.

(** X2. The fixed delays of a run add up to 500 ms for every visited
    channel (the settle delay) plus 3 s for every ScanResult the run
    appends (the collection dwell); the run sleeps nowhere else. *)
Theorem fixed_delays_of_a_run :
  forall (catalog : Catalog) (env : Z -> ChannelEnv) (timeout : Z)
         (s0 : ChannelScanner),
    sum_ms (sleeps (map fst (events (run catalog env timeout) s0)))
    = 500 * Z.of_nat (length (visits catalog))
      + 3000 * (Z.of_nat (length (results (exec (run catalog env timeout) s0)))
                - Z.of_nat (length (results s0))).
Proof.
  intros catalog env timeout s0.
  rewrite run_results, length_app.
  unfold sleeps. rewrite observe_run by reflexivity.
  rewrite (sleeps_of_visits catalog env timeout (visits catalog)). lia.
Qed.

(** X3. Every visited channel gets exactly one outcome diagnostic, the
    one its attempt amounts to ("no signal", "signal but no sync" or a
    "found" line), and the ScanResults the run appends are exactly those
    announced by the "found" lines, in order. *)
Theorem one_diagnostic_per_channel :
  forall (catalog : Catalog) (env : Z -> ChannelEnv) (timeout : Z)
         (s0 : ChannelScanner),
    let evs := map fst (events (run catalog env timeout) s0) in
    diagnostics evs
    = map (fun v => channel_outcome (snd v) (getFrequency catalog (snd v))
                                    (env (fst v)) timeout)
          (visits catalog)
    /\ results (exec (run catalog env timeout) s0)
       = results s0
           ++ flat_map (fun o => match o with Found r => [r] | _ => [] end)
                       (diagnostics evs).
Proof.
  intros catalog env timeout s0 evs. subst evs.
  assert (Hdiag :
    diagnostics (map fst (events (run catalog env timeout) s0))
    = map (fun v => channel_outcome (snd v) (getFrequency catalog (snd v))
                                    (env (fst v)) timeout)
          (visits catalog)).
  { unfold diagnostics. rewrite observe_run by reflexivity.
    apply flat_map_singleton. intros v.
    apply (visit_diagnostics catalog env timeout v). }
  split; [exact Hdiag|].
  rewrite Hdiag, run_results. f_equal. clear Hdiag.
  induction (visits catalog) as [|v l IH]; [reflexivity|].
  cbn [map]. rewrite !flat_map_step, IH. f_equal.
  unfold visit_results, appended, channel_outcome.
  destruct (has_signal _); [destruct (got_sync _ _)|]; reflexivity.
Qed.

(** X4. A run writes one progress line per visited channel, in visiting
    order, and its counter numbers them 1, 2, 3, ... without gap. *)
Theorem progress_lines_numbered :
  forall (catalog : Catalog) (env : Z -> ChannelEnv) (timeout : Z)
         (s0 : ChannelScanner),
    let lines :=
      progress_lines (map fst (events (run catalog env timeout) s0)) in
    lines = visits catalog
    /\ map fst lines = map Z.of_nat (seq 1 (length lines)).
Proof.
  intros catalog env timeout s0 lines.
  assert (Hlines : lines = visits catalog).
  { subst lines. unfold progress_lines. rewrite observe_run by reflexivity.
    rewrite (flat_map_singleton (fun v => v)); [apply map_id|].
    intros v. apply (visit_progress catalog env timeout v). }
  split; [exact Hlines|].
  rewrite Hlines. unfold visits. rewrite visits_from_indices.
  apply map_ext. intros i. lia.
Qed.

(** ** Engine instances: modes and exclusiveness *)

Section Engines.

Lemma visit_restarts catalog env timeout v :
  restarts (visit_actions catalog env timeout v)
  = ((fst v, Presence), true)
      :: (if has_signal (env (fst v)) then [((fst v, Sync), false)] else []).
Proof.
  unfold visit_actions, channel_actions, restarts.
  destruct (has_signal _); [destruct (got_sync _ _)|]; reflexivity.
Qed.

Lemma one_at_a_time_actions evs :
  forall live,
    one_at_a_time live evs
    = one_at_a_time live
        (List.filter (fun ev => negb (is_callback_event ev)) evs).
Proof.
  induction evs as [|ev evs IH]; intros live; [reflexivity|].
  destruct ev; simpl; rewrite ?IH; try reflexivity;
    destruct live; rewrite ?IH; reflexivity.
Qed.

Lemma one_at_a_time_visit catalog env timeout v evs :
  one_at_a_time None (visit_actions catalog env timeout v ++ evs)
  = one_at_a_time None evs.
Proof.
  unfold visit_actions, channel_actions.
  destruct (has_signal _); [destruct (got_sync _ _)|];
    cbn [app one_at_a_time]; rewrite ?rx_eqb_refl; reflexivity.
Qed.

Lemma one_at_a_time_visits catalog env timeout l :
  one_at_a_time None
    (flat_map (visit_actions catalog env timeout) l) = true.
Proof.
  induction l as [|v l IH]; [reflexivity|].
  now rewrite flat_map_step, one_at_a_time_visit.
Qed.

(** While an instance is live, any restart is preceded by its stop. *)
Lemma one_at_a_time_live evs :
  forall rx j rx' m,
    one_at_a_time (Some rx) evs = true ->
    nth_error evs j = Some (EvRxRestart rx' m) ->
    exists k, (k < j)%nat /\ nth_error evs k = Some (EvRxStop rx).
Proof.
  induction evs as [|ev evs IH]; intros rx j rx' m Hok Hj.
  - destruct j; discriminate.
  - assert (Hother :
      one_at_a_time (Some rx) evs = true ->
      (forall rx0 m0, ev <> EvRxRestart rx0 m0) ->
      exists k, (k < j)%nat /\ nth_error (ev :: evs) k = Some (EvRxStop rx)).
    { intros Hok' Hev. destruct j as [|j].
      - simpl in Hj. injection Hj as ->. now destruct (Hev rx' m).
      - destruct (IH rx j rx' m Hok' Hj) as (k & Hk & Hstop).
        exists (S k). split; [lia | exact Hstop]. }
    destruct ev as [| | | | |?|rx0 ?|rx0|?| | | | |]; simpl in Hok;
      try (apply Hother; [assumption | discriminate]).
    + discriminate.
    + apply andb_true_iff in Hok. destruct Hok as [Heq _].
      apply rx_eqb_eq in Heq. subst rx0.
      destruct j as [|j]; [discriminate|].
      exists O. split; [lia | reflexivity].
Qed.

Lemma one_at_a_time_exclusive evs :
  forall live i j rx m rx' m',
    one_at_a_time live evs = true ->
    (i < j)%nat ->
    nth_error evs i = Some (EvRxRestart rx m) ->
    nth_error evs j = Some (EvRxRestart rx' m') ->
    exists k, (i < k < j)%nat /\ nth_error evs k = Some (EvRxStop rx).
Proof.
  induction evs as [|ev evs IH]; intros live i j rx m rx' m' Hok Hij Hi Hj.
  - destruct i; discriminate.
  - destruct j as [|j]; [lia|]. destruct i as [|i].
    + simpl in Hi. injection Hi as ->. simpl in Hok, Hj.
      destruct live; [discriminate|].
      destruct (one_at_a_time_live evs rx j rx' m' Hok Hj) as (k & Hk & Hstop).
      exists (S k). split; [lia | exact Hstop].
    + simpl in Hi, Hj.
      assert (Hsub : exists live1, one_at_a_time live1 evs = true).
      { destruct ev as [| | | | |?|rx0 ?|rx0|?| | | | |]; simpl in Hok; eauto.
        - destruct live; [discriminate | eauto].
        - destruct live; [|discriminate].
          apply andb_true_iff in Hok. destruct Hok as [_ Hok]. eauto. }
      destruct Hsub as (live1 & Hok1).
      destruct (IH live1 i j rx m rx' m' Hok1 ltac:(lia) Hi Hj)
        as (k & Hk & Hstop).
      exists (S k). split; [lia | exact Hstop].
Qed.

End Engines.

(** X5. The engine is restarted in quick-detection mode once for every
    visited channel and in full mode once more for exactly the channels
    on which a signal was found; there are no other restarts, and they
    occur in this order. *)
Theorem restart_modes_per_channel :
  forall (catalog : Catalog) (env : Z -> ChannelEnv) (timeout : Z)
         (s0 : ChannelScanner),
    restarts (map fst (events (run catalog env timeout) s0))
    = flat_map
        (fun v =>
           ((fst v, Presence), true)
             :: (if has_signal (env (fst v))
                 then [((fst v, Sync), false)] else []))
        (visits catalog).
Proof.
  intros catalog env timeout s0.
  unfold restarts. rewrite observe_run by reflexivity.
  apply flat_map_ext. intros v. apply visit_restarts.
Qed.

(** X6. At most one engine instance runs at any time: between two
    restarts in the trace of a run, the instance restarted first is
    stopped. *)
Theorem one_engine_instance_at_a_time :
  forall (catalog : Catalog) (env : Z -> ChannelEnv) (timeout : Z)
         (s0 : ChannelScanner),
    let evs := map fst (events (run catalog env timeout) s0) in
    forall (i j : nat) (rx rx' : RxId) (m m' : bool),
      (i < j)%nat ->
      nth_error evs i = Some (EvRxRestart rx m) ->
      nth_error evs j = Some (EvRxRestart rx' m') ->
      exists k, (i < k < j)%nat /\ nth_error evs k = Some (EvRxStop rx).
Proof.
  intros catalog env timeout s0 evs i j rx rx' m m' Hij Hi Hj.
  apply (one_at_a_time_exclusive evs None i j rx m rx' m'); try assumption.
  subst evs. rewrite one_at_a_time_actions.
  change (List.filter (fun ev => negb (is_callback_event ev))
            (map fst (events (run catalog env timeout) s0)))
    with (actions (events (run catalog env timeout) s0)).
  rewrite run_actions. apply one_at_a_time_visits.
Qed.

Lemma one_engine_instance_at_a_time_witness :
  nth_error (map fst (events (run Scenario.catalog Scenario.env 10) new_scanner))
            17 = Some (EvRxRestart (2, Presence) true)
  /\ nth_error (map fst (events (run Scenario.catalog Scenario.env 10)
                                new_scanner))
               23 = Some (EvRxRestart (2, Sync) false)
  /\ exists k,
      (17 < k < 23)%nat
      /\ nth_error (map fst (events (run Scenario.catalog Scenario.env 10)
                                    new_scanner)) k
         = Some (EvRxStop (2, Presence)).
Proof.
  split; [reflexivity|]. split; [reflexivity|].
  exact (one_engine_instance_at_a_time Scenario.catalog Scenario.env 10
           new_scanner 17%nat 23%nat (2, Presence) (2, Sync) true false
           ltac:(lia) eq_refl eq_refl).
Defined.

(** ** What the phases read *)

Section PhaseReads.

Lemma synced_stays_false ns :
  forall s,
    synced s = false ->
    List.Forall (fun n => raises_sync n = false) ns ->
    synced (run_callbacks ns s) = false.
Proof.
  induction ns as [|n ns IH]; intros s Hs Hns; [exact Hs|].
  change (run_callbacks (n :: ns) s) with (run_callbacks ns (run_callback n s)).
  inversion Hns as [|? ? Hn Hrest]; subst.
  apply IH; [|assumption].
  destruct n; simpl in *; assumption.
Qed.

Lemma delivered_in_wait_Forall (P : Notification -> Prop) pred batches :
  forall s,
    List.Forall P (concat batches) ->
    List.Forall P (delivered_in_wait pred s batches).
Proof.
  induction batches as [|b bs IH]; intros s Hall; simpl;
    destruct (pred s); try constructor.
  simpl in Hall. apply List.Forall_app in Hall. destruct Hall as [Hb Hbs].
  apply List.Forall_app. split; [assumption | now apply IH].
Qed.

Lemma got_sync_needs_phase2_sync e timeout :
  List.Forall (fun n => raises_sync n = false) (phase2_before_read e timeout) ->
  got_sync e timeout = false.
Proof.
  unfold phase2_before_read. intros Hall.
  apply List.Forall_app in Hall. destruct Hall as [Hpre Hall].
  apply List.Forall_app in Hall. destruct Hall as [Hwait Hreread].
  unfold got_sync, sync_read, sync_end.
  rewrite wait_until_delivered.
  apply synced_stays_false; [|assumption].
  apply synced_stays_false; [|now apply delivered_in_wait_Forall].
  unfold sync_start. apply synced_stays_false; [reflexivity | assumption].
Qed.

End PhaseReads.

(** X7. Sync must be reported by the phase-2 engine instance: the synced
    flag is cleared before phase 2, so if the phase-2 instance delivers
    no sync-gained notification before the scanner reads the flag, the
    channel attempt appends nothing, whatever the presence instance
    reported (sync included). *)
Theorem sync_from_phase1_is_discarded :
  forall (scanned total : Z) (channelName : string) (freq : Z)
         (e : ChannelEnv) (timeout : Z) (s : ChannelScanner),
    List.Forall (fun n => raises_sync n = false)
                (phase2_before_read e timeout) ->
    got_sync e timeout = false
    /\ results (exec (scan_channel scanned total channelName freq e timeout) s)
       = results s.
Proof.
  intros scanned total channelName freq e timeout s Hall.
  pose proof (got_sync_needs_phase2_sync e timeout Hall) as Hsync.
  split; [exact Hsync|].
  rewrite scan_channel_results. unfold appended.
  rewrite Hsync, andb_false_r. apply app_nil_r.
Qed.

Lemma sync_from_phase1_is_discarded_witness :
  List.Forall (fun n => raises_sync n = false)
              (phase2_before_read ScenarioExtra.sync_only_in_phase1 10)
  /\ has_signal ScenarioExtra.sync_only_in_phase1 = true
  /\ results (exec (scan_channel 1 1 "5A" 174928000
                      ScenarioExtra.sync_only_in_phase1 10) Scenario.stale)
     = results Scenario.stale.
Proof.
  assert (Hall : List.Forall (fun n => raises_sync n = false)
                   (phase2_before_read ScenarioExtra.sync_only_in_phase1 10))
    by (repeat constructor).
  split; [exact Hall|]. split; [reflexivity|].
  exact (proj2 (sync_from_phase1_is_discarded 1 1 "5A" 174928000
                  ScenarioExtra.sync_only_in_phase1 10 Scenario.stale Hall)).
Defined.

(** ** Where the SNR and the ensemble id of a result come from *)

Section Samples.

Lemma current_snr_run_callbacks ns :
  forall s, current_snr (run_callbacks ns s) = last_snr (current_snr s) ns.
Proof.
  induction ns as [|n ns IH]; intros s; [reflexivity|].
  change (run_callbacks (n :: ns) s) with (run_callbacks ns (run_callback n s)).
  rewrite IH. destruct n; reflexivity.
Qed.

Lemma current_eid_run_callbacks ns :
  forall s, current_eid (run_callbacks ns s) = last_eid (current_eid s) ns.
Proof.
  induction ns as [|n ns IH]; intros s; [reflexivity|].
  change (run_callbacks (n :: ns) s) with (run_callbacks ns (run_callback n s)).
  rewrite IH. destruct n; reflexivity.
Qed.

Lemma last_snr_app dflt ns1 ns2 :
  last_snr dflt (ns1 ++ ns2) = last_snr (last_snr dflt ns1) ns2.
Proof. unfold last_snr. apply fold_left_app. Qed.

Lemma last_eid_app dflt ns1 ns2 :
  last_eid dflt (ns1 ++ ns2) = last_eid (last_eid dflt ns1) ns2.
Proof. unfold last_eid. apply fold_left_app. Qed.

Lemma collect_snr e timeout :
  current_snr (collect_state e timeout)
  = last_snr float_zero (delivered_before_collect e timeout).
Proof.
  unfold collect_state, sync_read, sync_end, delivered_before_collect.
  rewrite (wait_until_delivered synced), !current_snr_run_callbacks.
  unfold sync_start at 1, presence_end.
  rewrite current_snr_run_callbacks.
  change (current_snr (clear_synced ?s)) with (current_snr s).
  rewrite current_snr_run_callbacks, (wait_until_delivered signal_present).
  rewrite !current_snr_run_callbacks, !last_snr_app. reflexivity.
Qed.

Lemma collect_eid e timeout :
  current_eid (collect_state e timeout)
  = last_eid 0 (delivered_before_collect e timeout).
Proof.
  unfold collect_state, sync_read, sync_end, delivered_before_collect.
  rewrite (wait_until_delivered synced), !current_eid_run_callbacks.
  unfold sync_start at 1, presence_end.
  rewrite current_eid_run_callbacks.
  change (current_eid (clear_synced ?s)) with (current_eid s).
  rewrite current_eid_run_callbacks, (wait_until_delivered signal_present).
  rewrite !current_eid_run_callbacks, !last_eid_app. reflexivity.
Qed.

End Samples.

(** X8. The SNR of an appended ScanResult is the last SNR sample, and its
    ensemble id the last announced ensemble id (as a 16-bit value), that
    either engine instance delivered during this channel's attempt before
    the result was assembled; they are 0 when there was none, and
    samples arriving after the assembly do not count. *)
Theorem result_carries_latest_samples :
  forall (scanned total : Z) (channelName : string) (freq : Z)
         (e : ChannelEnv) (timeout : Z) (s : ChannelScanner) (r : ScanResult),
    results (exec (scan_channel scanned total channelName freq e timeout) s)
    = results s ++ [r] ->
    snr r = last_snr float_zero (delivered_before_collect e timeout)
    /\ ensemble_id r = last_eid 0 (delivered_before_collect e timeout).
Proof.
  intros scanned total channelName freq e timeout s r Hres.
  apply scan_channel_appends, appended_singleton in Hres.
  destruct Hres as (_ & _ & ->).
  unfold scan_result, assemble_result. simpl.
  now rewrite collect_snr, collect_eid.
Qed.

Lemma result_carries_latest_samples_witness :
  results (exec (scan_channel 2 2 "5B" 176640000
                   ScenarioExtra.bbc_with_samples 10) Scenario.stale)
  = results Scenario.stale
      ++ [scan_result "5B" 176640000 ScenarioExtra.bbc_with_samples 10]
  /\ snr (scan_result "5B" 176640000 ScenarioExtra.bbc_with_samples 10)
     = S754_finite false 7 1
  /\ ensemble_id (scan_result "5B" 176640000 ScenarioExtra.bbc_with_samples 10)
     = 0x4C86.
Proof.
  assert (Hres :
    results (exec (scan_channel 2 2 "5B" 176640000
                     ScenarioExtra.bbc_with_samples 10) Scenario.stale)
    = results Scenario.stale
        ++ [scan_result "5B" 176640000 ScenarioExtra.bbc_with_samples 10])
    by reflexivity.
  split; [exact Hres|].
  destruct (result_carries_latest_samples _ _ _ _ _ _ _ _ Hres) as [Hsnr Heid].
  split; [rewrite Hsnr | rewrite Heid]; reflexivity.
Defined.

(** ** Invariants of the appended results *)

Section ResultInvariants.

Lemma trim_well_trimmed s : well_trimmed (trim_trailing s).
Proof.
  destruct (trim_strips_spaces s) as (t & _ & _ & Hlast). exact Hlast.
Qed.

Lemma current_eid_range ns :
  forall s,
    0 <= current_eid s < 2 ^ 16 ->
    0 <= current_eid (run_callbacks ns s) < 2 ^ 16.
Proof.
  induction ns as [|n ns IH]; intros s Hs; [exact Hs|].
  change (run_callbacks (n :: ns) s) with (run_callbacks ns (run_callback n s)).
  apply IH. destruct n; simpl; try assumption.
  unfold to_uint16. apply Z.mod_pos_bound. lia.
Qed.

Lemma collect_eid_range e timeout :
  0 <= current_eid (collect_state e timeout) < 2 ^ 16.
Proof.
  unfold collect_state, sync_read, sync_end.
  rewrite (wait_until_delivered synced).
  do 3 apply current_eid_range.
  unfold sync_start. apply current_eid_range.
  change (current_eid (clear_synced ?s)) with (current_eid s).
  apply current_eid_range.
  unfold presence_end. rewrite (wait_until_delivered signal_present).
  do 2 apply current_eid_range.
  simpl. lia.
Qed.

Lemma hex_str_short_id v :
  0 <= v < 2 ^ 16 -> String.length (hex_str v default_width) = 6%nat.
Proof.
  intros Hv. unfold hex_str. rewrite to_uint32_small by lia.
  destruct (to_hex_upper_spec v ltac:(lia)) as [_ _ Hsome Hfit Htight].
  pose proof (pad_left_length default_width (to_hex_upper v)) as Hlen.
  unfold default_width in *.
  assert (Hshort : (String.length (to_hex_upper v) <= 4)%nat).
  { destruct Htight as [H1 | Hge]; [lia|].
    destruct (le_lt_dec (String.length (to_hex_upper v)) 4) as [|Hgt];
      [assumption|].
    assert (16 ^ 4 <= 16 ^ (Z.of_nat (String.length (to_hex_upper v)) - 1))
      by (apply Z.pow_le_mono_r; lia).
    lia. }
  rewrite length_append. simpl String.length at 1. lia.
Qed.

Lemma appended_Forall (P : ScanResult -> Prop) catalog env timeout l :
  (forall channelName freq e,
      has_signal e = true -> got_sync e timeout = true ->
      P (scan_result channelName freq e timeout)) ->
  List.Forall P (flat_map (visit_results catalog env timeout) l).
Proof.
  intros HP. induction l as [|v l IH]; [constructor|].
  rewrite flat_map_step. apply List.Forall_app. split; [|exact IH].
  unfold visit_results, appended.
  destruct (has_signal _) eqn:Hsig; [destruct (got_sync _ _) eqn:Hsync|];
    simpl; constructor; [now apply HP | constructor].
Qed.

Lemma visit_results_length catalog env timeout l :
  (length (flat_map (visit_results catalog env timeout) l) <= length l)%nat.
Proof.
  induction l as [|v l IH]; [reflexivity|].
  rewrite flat_map_step, length_app. unfold visit_results at 1, appended.
  destruct (has_signal _); [destruct (got_sync _ _)|]; simpl; lia.
Qed.

Lemma visits_from_length rest :
  forall channelName scanned,
    (length (visits_from rest channelName scanned) <= S (length rest))%nat.
Proof.
  induction rest as [|c rest IH]; intros channelName scanned;
    simpl visits_from; destruct (String.eqb channelName ""); simpl; try lia.
  specialize (IH (fst c) (scanned + 1)). lia.
Qed.

Lemma visits_length catalog :
  (length (visits catalog) <= length catalog)%nat.
Proof.
  destruct catalog as [|c rest]; [reflexivity|].
  unfold visits. simpl. apply visits_from_length.
Qed.

End ResultInvariants.

(** X9. Every label a run stores is normalized: the ensemble label and
    all service labels of each ScanResult the run appends do not end in a
    white-space character. *)
Theorem appended_labels_are_trimmed :
  forall (catalog : Catalog) (env : Z -> ChannelEnv) (timeout : Z)
         (s0 : ChannelScanner),
    exists new : list ScanResult,
      results (exec (run catalog env timeout) s0) = results s0 ++ new
      /\ List.Forall
           (fun r =>
              well_trimmed (ensemble_label r)
              /\ List.Forall (fun si => well_trimmed (label si)) (services r))
           new.
Proof.
  intros catalog env timeout s0.
  exists (flat_map (visit_results catalog env timeout) (visits catalog)).
  split; [apply run_results|].
  apply appended_Forall. intros channelName freq e _ _.
  unfold scan_result, assemble_result. simpl. split.
  - apply trim_well_trimmed.
  - apply List.Forall_forall. intros si Hsi.
    apply in_map_iff in Hsi. destruct Hsi as (sv & <- & _).
    apply trim_well_trimmed.
Qed.

(** X10. Every ScanResult a run appends has its frequency in the range of
    a 32-bit unsigned value and its ensemble id in the range of a 16-bit
    one, so the report renders the ensemble id with exactly four
    hexadecimal digits after "0x". *)
Theorem appended_ids_in_range :
  forall (catalog : Catalog) (env : Z -> ChannelEnv) (timeout : Z)
         (s0 : ChannelScanner),
    exists new : list ScanResult,
      results (exec (run catalog env timeout) s0) = results s0 ++ new
      /\ List.Forall
           (fun r =>
              0 <= frequency_hz r < 2 ^ 32
              /\ 0 <= ensemble_id r < 2 ^ 16
              /\ String.length (hex_str (ensemble_id r) default_width) = 6%nat)
           new.
Proof.
  intros catalog env timeout s0.
  exists (flat_map (visit_results catalog env timeout) (visits catalog)).
  split; [apply run_results|].
  apply appended_Forall. intros channelName freq e _ _.
  unfold scan_result, assemble_result. simpl.
  pose proof (collect_eid_range e timeout) as Heid.
  split; [|split; [exact Heid | now apply hex_str_short_id]].
  unfold to_uint32. apply Z.mod_pos_bound. lia.
Qed.

(** X11. A run never drops or changes results already held: the result
    sequence afterwards is the earlier one followed by at most one new
    entry per catalog channel. *)
Theorem run_extends_results :
  forall (catalog : Catalog) (env : Z -> ChannelEnv) (timeout : Z)
         (s0 : ChannelScanner),
    exists new : list ScanResult,
      results (exec (run catalog env timeout) s0) = results s0 ++ new
      /\ (length new <= length catalog)%nat.
Proof.
  intros catalog env timeout s0.
  exists (flat_map (visit_results catalog env timeout) (visits catalog)).
  split; [apply run_results|].
  pose proof (visit_results_length catalog env timeout (visits catalog)).
  pose proof (visits_length catalog). lia.
Qed.

(** X14. [run] does not clear [results]: a second run on the same scanner
    keeps the results of the first and appends after them exactly what it
    would append on a fresh scanner, so scanning twice records every
    ensemble found both times twice. *)
Theorem second_run_appends :
  forall (catalog : Catalog) (env env' : Z -> ChannelEnv)
         (timeout timeout' : Z) (s0 : ChannelScanner),
    results (exec (run catalog env' timeout')
                  (exec (run catalog env timeout) s0))
    = results (exec (run catalog env timeout) s0)
        ++ results (exec (run catalog env' timeout') new_scanner).
Proof.
  intros. rewrite (run_results catalog env' timeout').
  now rewrite (run_results catalog env' timeout' new_scanner).
Qed.

(** ** The order of visits and results *)

Section Order.

Lemma visits_from_names rest :
  forall channelName scanned,
    map snd (visits_from rest channelName scanned)
    = until_sentinel (channelName :: map fst rest).
Proof.
  induction rest as [|c rest IH]; intros channelName scanned;
    simpl visits_from; simpl until_sentinel;
    destruct (String.eqb channelName ""); try reflexivity.
  cbn [map snd]. f_equal. apply IH.
Qed.

Lemma visits_names catalog :
  map snd (visits catalog) = until_sentinel (map fst catalog).
Proof.
  destruct catalog as [|c rest]; [reflexivity|].
  unfold visits. simpl tl. simpl firstChannel. apply visits_from_names.
Qed.

Lemma until_sentinel_sublist names : sublist (until_sentinel names) names.
Proof.
  induction names as [|n names IH]; simpl; [constructor|].
  destruct (String.eqb n ""); [apply sublist_nil_l | now constructor].
Qed.

Lemma until_sentinel_nonempty names :
  List.Forall (fun n => n <> "") (until_sentinel names).
Proof.
  induction names as [|n names IH]; simpl; [constructor|].
  destruct (String.eqb_spec n ""); constructor; assumption.
Qed.

Lemma until_sentinel_split names :
  exists rest, names = until_sentinel names ++ rest
               /\ (rest = [] \/ exists rest', rest = "" :: rest').
Proof.
  induction names as [|n names (rest & Heq & Hrest)]; simpl.
  - exists []. split; [reflexivity | now left].
  - destruct (String.eqb_spec n "") as [-> | Hn].
    + exists ("" :: names). split; [reflexivity | right; eauto].
    + exists rest. split; [simpl; now rewrite <- Heq | exact Hrest].
Qed.

Lemma visit_results_channels catalog env timeout l :
  sublist (map channel (flat_map (visit_results catalog env timeout) l))
          (map snd l).
Proof.
  induction l as [|v l IH]; [constructor|].
  rewrite flat_map_step, map_app. cbn [map].
  unfold visit_results at 1, appended.
  destruct (has_signal _); [destruct (got_sync _ _)|]; simpl;
    now constructor.
Qed.

End Order.

(** X12. The ScanResults a run appends are in catalog order, at most one
    per catalog entry, and each carries the id of a catalog channel
    together with the frequency the catalog lists for that id
    (converted to a 32-bit unsigned value). *)
Theorem appended_results_follow_catalog :
  forall (catalog : Catalog) (env : Z -> ChannelEnv) (timeout : Z)
         (s0 : ChannelScanner),
    exists new : list ScanResult,
      results (exec (run catalog env timeout) s0) = results s0 ++ new
      /\ sublist (map channel new) (map fst catalog)
      /\ List.Forall
           (fun r => frequency_hz r
                     = to_uint32 (getFrequency catalog (channel r)))
           new.
Proof.
  intros catalog env timeout s0.
  exists (flat_map (visit_results catalog env timeout) (visits catalog)).
  split; [apply run_results|]. split.
  - transitivity (map snd (visits catalog)).
    + apply visit_results_channels.
    + rewrite visits_names. apply until_sentinel_sublist.
  - induction (visits catalog) as [|v l IH]; [constructor|].
    rewrite flat_map_step. apply List.Forall_app. split; [|exact IH].
    unfold visit_results, appended.
    destruct (has_signal _); [destruct (got_sync _ _)|]; simpl;
      constructor; [reflexivity | constructor].
Qed.

(** X13. The loop ends at the first empty channel id: the channels a run
    visits (those of its progress lines) are the catalog entries before
    the first empty id, in order; an entry after an empty id is never
    visited, and with no empty id the whole catalog is. *)
Theorem scan_stops_at_empty_channel_id :
  forall (catalog : Catalog) (env : Z -> ChannelEnv) (timeout : Z)
         (s0 : ChannelScanner),
    let visited :=
      map snd (progress_lines (map fst (events (run catalog env timeout) s0)))
    in
    visited = until_sentinel (map fst catalog)
    /\ List.Forall (fun n => n <> "") visited
    /\ exists rest,
        map fst catalog = visited ++ rest
        /\ (rest = [] \/ exists rest', rest = "" :: rest').
Proof.
  intros catalog env timeout s0 visited.
  assert (Hvisited : visited = until_sentinel (map fst catalog)).
  { subst visited. unfold progress_lines.
    rewrite observe_run by reflexivity.
    rewrite (flat_map_singleton (fun v => v));
      [|intros v; apply (visit_progress catalog env timeout v)].
    rewrite map_id. apply visits_names. }
  rewrite Hvisited.
  split; [reflexivity|]. split; [apply until_sentinel_nonempty|].
  apply until_sentinel_split.
Qed.

(** ** The detected-service-id set *)

(** X15. The detected-service-id set behaves as a set of 32-bit ids: after
    any burst of notifications it holds exactly the ids it held before
    and the ids (modulo 2^32) of the service-detected notifications in
    the burst, however often and in whatever order they came. *)
Theorem detected_sids_collects_ids :
  forall (ns : list Notification) (s : ScanState) (x : Z),
    x ∈ detected_sids (run_callbacks ns s)
    <-> x ∈ detected_sids s
        \/ exists i, In (OnServiceDetected i) ns /\ x = to_uint32 i.
Proof.
  induction ns as [|n ns IH]; intros s x.
  - simpl. split; [now left | intros [H | (i & [] & _)]; exact H].
  - change (run_callbacks (n :: ns) s) with (run_callbacks ns (run_callback n s)).
    rewrite IH. split.
    + intros [Hin | (i & Hi & ->)].
      * destruct n; simpl in Hin; try (now left).
        apply elem_of_union in Hin. destruct Hin as [Hin | Hin]; [|now left].
        apply elem_of_singleton in Hin. subst x.
        right. eexists. split; [left; reflexivity | reflexivity].
      * right. exists i. split; [now right | reflexivity].
    + intros [Hin | (i & [-> | Hi] & ->)].
      * left. destruct n; simpl; try assumption.
        apply elem_of_union. now right.
      * left. simpl. apply elem_of_union. left. now apply elem_of_singleton.
      * right. exists i. split; [assumption | reflexivity].
Qed.

(** ** Reading rendered ids and reports back *)

Section ReadBack.

Lemma hex_value_pad_left width v :
  0 <= v < 2 ^ 32 ->
  hex_value (pad_left "0" width (to_hex_upper v)) = Some v.
Proof.
  intros Hv. destruct (to_hex_upper_spec v Hv) as [_ Hval _ _ _].
  unfold hex_value, pad_left.
  rewrite hex_value_from_app, zeros_value, Hval. f_equal; lia.
Qed.

Lemma parse_hex_str_hex_str v width :
  0 <= v < 2 ^ 32 -> parse_hex_str (hex_str v width) = Some v.
Proof.
  intros Hv. unfold hex_str. rewrite to_uint32_small by assumption.
  change (parse_hex_str (String.append "0x" ?ds)) with (hex_value ds).
  now apply hex_value_pad_left.
Qed.

Lemma push_back_all {A : Type} (f : A -> json) l :
  forall acc,
    fold_left (fun arr x => push_back (f x) arr) l (JArray acc)
    = JArray (acc ++ map f l).
Proof.
  induction l as [|x l IH]; intros acc; simpl.
  - now rewrite app_nil_r.
  - rewrite IH, <- app_assoc. reflexivity.
Qed.

Lemma assoc_get_set_same k v kvs :
  assoc_get k (assoc_set k v kvs) = Some v.
Proof.
  induction kvs as [|[k' v'] rest IH]; simpl.
  - now rewrite String.eqb_refl.
  - destruct (String.compare k k') eqn:Hc; simpl;
      rewrite ?String.eqb_refl; try reflexivity.
    destruct (String.eqb_spec k k') as [->|_]; [|exact IH].
    pose proof (String.compare_antisym k' k') as Ha.
    rewrite Hc in Ha. discriminate Ha.
Qed.

Lemma assoc_get_set_other k k' v kvs :
  k <> k' -> assoc_get k' (assoc_set k v kvs) = assoc_get k' kvs.
Proof.
  intros Hne. induction kvs as [|[k1 v1] rest IH]; simpl.
  - destruct (String.eqb_spec k' k); congruence.
  - destruct (String.compare k k1) eqn:Hc; simpl.
    + apply String.compare_eq_iff in Hc. subst k1.
      destruct (String.eqb_spec k' k); congruence.
    + destruct (String.eqb_spec k' k); congruence.
    + destruct (String.eqb k' k1); [reflexivity | exact IH].
Qed.

(** Reading a member after [j[k] = v]. *)
Lemma member_set_same k v j : member k (set_member k v j) = v.
Proof.
  destruct j; simpl; rewrite ?String.eqb_refl; try reflexivity.
  now rewrite assoc_get_set_same.
Qed.

Lemma member_set_other k k' v j :
  k <> k' -> member k' (set_member k v j) = member k' j.
Proof.
  intros Hne.
  destruct j; simpl;
    try (destruct (String.eqb_spec k' k); congruence).
  now rewrite assoc_get_set_other.
Qed.

Lemma member_set2_same a b v j :
  member a (set_member2 a b v j) = set_member b v (member a j).
Proof. apply member_set_same. Qed.

Lemma member_set2_other a a' b v j :
  a <> a' -> member a' (set_member2 a b v j) = member a' j.
Proof. apply member_set_other. Qed.

Ltac lookup_member :=
  repeat first
    [ rewrite member_set_same
    | rewrite member_set2_same
    | rewrite member_set_other by discriminate
    | rewrite member_set2_other by discriminate ].

Lemma decode_service_json s :
  0 <= sid s < 2 ^ 32 -> decode_service (service_json s) = Some s.
Proof.
  intros Hs. unfold decode_service, service_json. cbv zeta. lookup_member.
  rewrite parse_hex_str_hex_str by assumption. now destruct s.
Qed.

Lemma decode_services_json ss :
  List.Forall (fun si => 0 <= sid si < 2 ^ 32) ss ->
  decode_services (map service_json ss) = Some ss.
Proof.
  induction 1 as [|s ss Hs _ IH]; [reflexivity|].
  cbn [map decode_services]. now rewrite decode_service_json, IH.
Qed.

Lemma decode_result_json r :
  ids_in_range r -> decode_result (result_json r) = Some r.
Proof.
  intros [Heid Hsids]. unfold decode_result, result_json. cbv zeta.
  rewrite push_back_all. lookup_member. cbn [app].
  rewrite parse_hex_str_hex_str by lia.
  rewrite decode_services_json by assumption. now destruct r.
Qed.

Lemma decode_results_json rs :
  List.Forall ids_in_range rs ->
  decode_results (map result_json rs) = Some rs.
Proof.
  induction 1 as [|r rs Hr _ IH]; [reflexivity|].
  cbn [map decode_results fold_right].
  fold (decode_results (map result_json rs)).
  now rewrite decode_result_json, IH.
Qed.

End ReadBack.

(** X16. A rendered id reads back: for every 32-bit value and every field
    width, [hex_str] yields "0x" followed by digits whose hexadecimal
    value is the id, so distinct ids never render alike; the text is
    never shorter than the width asks for and the digits are never more
    than max(width, 8). *)
Theorem hex_str_reads_back :
  forall (v width : Z),
    0 <= v < 2 ^ 32 ->
    parse_hex_str (hex_str v width) = Some v
    /\ Z.max width 1 <= Z.of_nat (String.length (hex_str v width)) - 2
                     <= Z.max width 8.
Proof.
  intros v width Hv. split; [now apply parse_hex_str_hex_str|].
  unfold hex_str. rewrite to_uint32_small by assumption.
  rewrite length_append.
  pose proof (pad_left_length width (to_hex_upper v)) as Hlen.
  destruct (to_hex_upper_spec v Hv) as [_ _ Hsome Hfit Htight].
  assert (Hmost : (String.length (to_hex_upper v) <= 8)%nat).
  { destruct Htight as [H1 | Hge]; [lia|].
    destruct (le_lt_dec (String.length (to_hex_upper v)) 8) as [|Hgt];
      [assumption|].
    assert (16 ^ 8 <= 16 ^ (Z.of_nat (String.length (to_hex_upper v)) - 1))
      by (apply Z.pow_le_mono_r; lia).
    lia. }
  simpl String.length at 1. simpl String.length at 2. lia.
Qed.

Lemma hex_str_reads_back_witness :
  0 <= 0xC221 < 2 ^ 32
  /\ parse_hex_str (hex_str 0xC221 2) = Some 0xC221
  /\ parse_hex_str (hex_str 0xC221 12) = Some 0xC221.
Proof.
  split; [lia|]. split.
  - exact (proj1 (hex_str_reads_back 0xC221 2 ltac:(lia))).
  - exact (proj1 (hex_str_reads_back 0xC221 12 ltac:(lia))).
Defined.

(** X17. The document [printJsonReport] builds, as it stands before it
    is serialized, loses nothing: when the ensemble ids and service ids
    of the results fit their 16-bit and 32-bit fields, the result
    sequence is read back from the members of the document, every entry
    with its channel, frequency, ensemble id and label, SNR and services,
    in the same order. The text that [dump(2)] makes of the document is
    not covered. *)
Theorem report_document_reads_back :
  forall (catalog : Catalog) (tsbuf : string) (sc : ChannelScanner),
    List.Forall ids_in_range (results sc) ->
    decode_report (printJsonReport catalog tsbuf sc) = Some (results sc).
Proof.
  intros catalog tsbuf sc Hok.
  unfold decode_report, printJsonReport. cbv zeta.
  rewrite push_back_all, member_set_same. cbn [app].
  now apply decode_results_json.
Qed.

Lemma report_document_reads_back_witness :
  List.Forall ids_in_range
    (results (exec (run Scenario.catalog Scenario.env 10) new_scanner))
  /\ decode_report
       (printJsonReport Scenario.catalog "2026-03-01T12:00:00Z"
          (exec (run Scenario.catalog Scenario.env 10) new_scanner))
     = Some [scan_result "5B" 176640000 Scenario.bbc 10].
Proof.
  assert (Hok : List.Forall ids_in_range
            (results (exec (run Scenario.catalog Scenario.env 10) new_scanner))).
  { rewrite run_results. simpl.
    repeat constructor; simpl; try lia; discriminate. }
  split; [exact Hok|].
  exact (report_document_reads_back Scenario.catalog "2026-03-01T12:00:00Z"
           (exec (run Scenario.catalog Scenario.env 10) new_scanner) Hok).
Defined.

(** ** More on label normalization *)

Section TrimMore.

Lemma rfind_app_spaces a b :
  List.Forall (fun c => isspace c = true) a ->
  rfind_if_not_space (a ++ b) = (length a + rfind_if_not_space b)%nat.
Proof.
  induction 1 as [|c a Hc _ IH]; [reflexivity|].
  cbn [app rfind_if_not_space length]. rewrite Hc. simpl. now rewrite IH.
Qed.

Lemma rfind_zero b :
  (forall c, head b = Some c -> isspace c = false) ->
  rfind_if_not_space b = O.
Proof.
  destruct b as [|c b]; [reflexivity|]. intros Hb. simpl.
  now rewrite (Hb c eq_refl).
Qed.

Lemma skipn_past {A : Type} (a b : list A) : skipn (length a) (a ++ b) = b.
Proof. induction a as [|x a IH]; [reflexivity | exact IH]. Qed.

(** The normalized label is the only way to cut a trailing white-space
    run off a string and be left with no trailing white space. *)
Lemma trim_unique s r :
  strips_trailing_run isspace s r -> trim_trailing s = r.
Proof.
  intros (t & -> & Hspaces & Hlast).
  rewrite <- (string_of_list_ascii_of_string (trim_trailing _)).
  rewrite trim_kept, list_ascii_append, rev_app_distr.
  rewrite rfind_app_spaces by now apply List.Forall_rev.
  rewrite (rfind_zero (rev (list_ascii_of_string r))).
  - rewrite Nat.add_0_r, skipn_past.
    now rewrite rev_involutive, string_of_list_ascii_of_string.
  - intros c Hc. apply Hlast. unfold last_char.
    now rewrite <- (rev_involutive (list_ascii_of_string r)), last_rev_head.
Qed.

Lemma append_assoc_string x y z :
  String.append (String.append x y) z = String.append x (String.append y z).
Proof.
  induction x as [|c x IH]; [reflexivity|].
  now rewrite !append_cons, IH.
Qed.

End TrimMore.

(** X18. Trailing padding is immaterial to label normalization: appending
    white-space characters to a label does not change its normalized
    form, so labels that differ only in trailing white space are
    normalized to the same text. *)
Theorem trim_ignores_trailing_padding :
  forall s t : string,
    List.Forall (fun c => isspace c = true) (list_ascii_of_string t) ->
    trim_trailing (String.append s t) = trim_trailing s.
Proof.
  intros s t Ht. apply trim_unique.
  destruct (trim_strips_spaces s) as (t0 & Heq & Ht0 & Hlast).
  exists (String.append t0 t). split; [|split].
  - rewrite Heq at 1. apply append_assoc_string.
  - rewrite list_ascii_append. apply List.Forall_app. now split.
  - exact Hlast.
Qed.

Lemma trim_ignores_trailing_padding_witness :
  List.Forall (fun c => isspace c = true)
              (list_ascii_of_string (String " " (String "009" (String " " ""))))
  /\ trim_trailing
       (String.append "BBC  Radio 1 " (String " " (String "009" (String " " ""))))
     = "BBC  Radio 1".
Proof.
  assert (Hpad : List.Forall (fun c => isspace c = true)
            (list_ascii_of_string (String " " (String "009" (String " " "")))))
    by (repeat constructor).
  split; [exact Hpad|].
  rewrite (trim_ignores_trailing_padding "BBC  Radio 1 " _ Hpad).
  reflexivity.
Defined.

(** X19. Normalization yields the empty label exactly for labels that
    consist of white-space characters only (the empty label included);
    any label with another character keeps everything up to its last
    such character. *)
Theorem trim_empty_iff_blank :
  forall s : string,
    trim_trailing s = ""
    <-> List.Forall (fun c => isspace c = true) (list_ascii_of_string s).
Proof.
  intros s. split.
  - intros Hempty.
    destruct (trim_strips_spaces s) as (t & Heq & Ht & _).
    rewrite Hempty in Heq. change (String.append "" t) with t in Heq.
    now rewrite Heq.
  - intros Hblank. apply trim_unique.
    exists s. split; [reflexivity|]. split; [assumption|].
    intros c Hc. discriminate Hc.
Qed.

(** ** The flags the waits look at *)

Section Flags.

Variables (get : ScanState -> bool) (mine : Notification -> bool).

Hypothesis Hother :
  forall n s, mine n = false -> get (run_callback n s) = get s.
Hypothesis Hmine :
  forall n s s', mine n = true ->
                 get (run_callback n s) = get (run_callback n s').

Lemma flag_congruence ns :
  forall s s',
    get s = get s' -> get (run_callbacks ns s) = get (run_callbacks ns s').
Proof.
  induction ns as [|n ns IH]; intros s s' Hs; [exact Hs|].
  change (run_callbacks (n :: ns) ?x) with (run_callbacks ns (run_callback n x)).
  apply IH. destruct (mine n) eqn:Hn.
  - now apply Hmine.
  - now rewrite !Hother.
Qed.

Lemma flag_filter ns :
  forall s,
    get (run_callbacks ns s) = get (run_callbacks (List.filter mine ns) s).
Proof.
  induction ns as [|n ns IH]; intros s; [reflexivity|].
  change (run_callbacks (n :: ns) s) with (run_callbacks ns (run_callback n s)).
  simpl List.filter. destruct (mine n) eqn:Hn.
  - change (run_callbacks (n :: ?l) s) with (run_callbacks l (run_callback n s)).
    apply IH.
  - rewrite IH. apply flag_congruence. now apply Hother.
Qed.

Lemma flag_same_reports ns ns' s s' :
  List.filter mine ns = List.filter mine ns' ->
  get s = get s' ->
  get (run_callbacks ns s) = get (run_callbacks ns' s').
Proof.
  intros Hns Hs. rewrite (flag_filter ns), (flag_filter ns'), Hns.
  now apply flag_congruence.
Qed.

Lemma flag_wait_same_reports bs :
  forall bs' s s',
    map (List.filter mine) bs = map (List.filter mine) bs' ->
    get s = get s' ->
    get (wait_until get s bs) = get (wait_until get s' bs').
Proof.
  induction bs as [|b bs IH]; intros [|b' bs'] s s' Hbs Hs;
    try discriminate; simpl wait_until; rewrite <- Hs;
    destruct (get s) eqn:Hg; try congruence.
  injection Hbs as Hb Hbs.
  apply IH; [assumption|].
  apply flag_same_reports; [assumption | congruence].
Qed.

End Flags.

Section Outcome.

Lemma presence_other n s :
  is_presence_report n = false ->
  signal_present (run_callback n s) = signal_present s.
Proof. destruct n; simpl; congruence. Qed.

Lemma presence_mine n s s' :
  is_presence_report n = true ->
  signal_present (run_callback n s) = signal_present (run_callback n s').
Proof. destruct n; simpl; congruence. Qed.

Lemma sync_other n s :
  is_sync_report n = false -> synced (run_callback n s) = synced s.
Proof. destruct n; simpl; congruence. Qed.

Lemma sync_mine n s s' :
  is_sync_report n = true ->
  synced (run_callback n s) = synced (run_callback n s').
Proof. destruct n; simpl; congruence. Qed.

Lemma signal_stays_absent ns :
  forall s,
    signal_present s = false ->
    List.Forall (fun n => raises_presence n = false) ns ->
    signal_present (run_callbacks ns s) = false.
Proof.
  induction ns as [|n ns IH]; intros s Hs Hns; [exact Hs|].
  change (run_callbacks (n :: ns) s) with (run_callbacks ns (run_callback n s)).
  inversion Hns as [|? ? Hn Hrest]; subst.
  apply IH; [|assumption].
  destruct n; simpl in *; assumption.
Qed.

End Outcome.

(** X20. Whether a channel is recorded depends only on the flag reports:
    two behaviours of the engine that deliver the same signal-presence
    reports while the scanner waits for presence, and the same sync
    reports from the phase-2 instance until the scanner reads the flag,
    lead to the same outcome, whatever SNR, ensemble, label and
    service notifications they deliver and wherever else they differ. *)
Theorem outcome_depends_on_flag_reports_only :
  forall (e e' : ChannelEnv) (timeout : Z),
    same_flag_reports e e' timeout ->
    has_signal e = has_signal e'
    /\ got_sync e timeout = got_sync e' timeout
    /\ forall (scanned total : Z) (channelName : string) (freq : Z)
              (s : ChannelScanner),
        length (results (exec (scan_channel scanned total channelName freq
                                            e timeout) s))
        = length (results (exec (scan_channel scanned total channelName freq
                                              e' timeout) s)).
Proof.
  intros e e' timeout (H1 & H2 & H3 & H4 & H5).
  assert (Hsig : has_signal e = has_signal e').
  { unfold has_signal, presence_end.
    apply (flag_wait_same_reports signal_present is_presence_report
             presence_other presence_mine); [assumption|].
    now apply (flag_same_reports signal_present is_presence_report
                 presence_other presence_mine). }
  assert (Hsync : got_sync e timeout = got_sync e' timeout).
  { unfold got_sync, sync_read, sync_end.
    apply (flag_same_reports synced is_sync_report sync_other sync_mine);
      [assumption|].
    apply (flag_wait_same_reports synced is_sync_report sync_other sync_mine);
      [assumption|].
    unfold sync_start.
    now apply (flag_same_reports synced is_sync_report sync_other sync_mine). }
  split; [exact Hsig|]. split; [exact Hsync|].
  intros scanned total channelName freq s.
  rewrite !scan_channel_results, !length_app. unfold appended.
  rewrite Hsig, Hsync.
  destruct (has_signal e'), (got_sync e' timeout); reflexivity.
Qed.

Lemma outcome_depends_on_flag_reports_only_witness :
  same_flag_reports Scenario.bbc ScenarioExtra.bbc_with_samples 10
  /\ has_signal ScenarioExtra.bbc_with_samples = true
  /\ got_sync ScenarioExtra.bbc_with_samples 10 = true.
Proof.
  assert (Hsame : same_flag_reports Scenario.bbc
                                    ScenarioExtra.bbc_with_samples 10)
    by (repeat split).
  split; [exact Hsame|].
  destruct (outcome_depends_on_flag_reports_only _ _ _ Hsame)
    as (Hsig & Hsync & _).
  split; [rewrite <- Hsig | rewrite <- Hsync]; reflexivity.
Defined.

(** X21. Without a signal-presence report there is no phase 2: if the
    presence instance never reports a signal as present before the
    presence wait ends, the full-receive instance is never created or
    restarted, the only diagnostic is "no signal", and nothing is
    appended. *)
Theorem no_presence_report_no_phase2 :
  forall (scanned total : Z) (channelName : string) (freq : Z)
         (e : ChannelEnv) (timeout : Z) (s : ChannelScanner),
    List.Forall (fun n => raises_presence n = false)
                (p1_pre e ++ concat (p1_wait e 3)) ->
    let evs :=
      map fst (events (scan_channel scanned total channelName freq e timeout)
                      s) in
    restarts evs = [((scanned, Presence), true)]
    /\ diagnostics evs = [NoSignal]
    /\ ~ In (EvRxCreate (scanned, Sync)) evs
    /\ results (exec (scan_channel scanned total channelName freq e timeout) s)
       = results s.
Proof.
  intros scanned total channelName freq e timeout s Hall evs.
  assert (Hsig : has_signal e = false).
  { apply List.Forall_app in Hall. destruct Hall as [Hpre Hwait].
    unfold has_signal, presence_end. rewrite wait_until_delivered.
    apply signal_stays_absent; [|now apply delivered_in_wait_Forall].
    now apply signal_stays_absent. }
  assert (Hact : actions (events (scan_channel scanned total channelName freq
                                               e timeout) s)
                 = channel_actions scanned total channelName freq e timeout)
    by apply scan_channel_actions.
  unfold channel_actions in Hact. rewrite Hsig in Hact.
  subst evs. split; [|split; [|split]].
  - unfold restarts. rewrite flat_map_actions by reflexivity.
    now rewrite Hact.
  - unfold diagnostics. rewrite flat_map_actions by reflexivity.
    now rewrite Hact.
  - intros Hin.
    assert (Hin' : In (EvRxCreate (scanned, Sync))
                      (actions (events (scan_channel scanned total channelName
                                          freq e timeout) s))).
    { unfold actions. apply List.filter_In. now split. }
    rewrite Hact in Hin'. simpl in Hin'.
    repeat (destruct Hin' as [Hin' | Hin']; [discriminate Hin'|]).
    exact Hin'.
  - rewrite scan_channel_results. unfold appended. rewrite Hsig.
    apply app_nil_r.
Qed.

Lemma no_presence_report_no_phase2_witness :
  List.Forall (fun n => raises_presence n = false)
              (p1_pre Scenario.silent ++ concat (p1_wait Scenario.silent 3))
  /\ diagnostics
       (map fst (events (scan_channel 1 2 "5A" 174928000 Scenario.silent 10)
                        Scenario.stale))
     = [NoSignal].
Proof.
  assert (Hall : List.Forall (fun n => raises_presence n = false)
            (p1_pre Scenario.silent ++ concat (p1_wait Scenario.silent 3)))
    by constructor.
  split; [exact Hall|].
  exact (proj1 (proj2 (no_presence_report_no_phase2 1 2 "5A" 174928000
                         Scenario.silent 10 Scenario.stale Hall))).
Defined.
